(** * The workflow controller's metrics registry (workflow/metrics/metrics.go)

    A shallow embedding of the [Metrics] registry: the struct and its maps,
    registration of custom metrics ([UpsertCustomMetric]), lookup
    ([GetCustomMetric]), owner-scoped removal ([StopRealtimeMetricsForKey]),
    the enumeration used for scraping ([allMetrics]) and the work-queue
    metrics provider ([NewDepthMetric], [NewAddsMetric], [NewLatencyMetric]).

    Go maps are finite maps ([gmap]); a Go interface value that may be nil is
    an [option]; a call that may panic returns an [outcome]; objects created
    by the instrument factory carry the address the allocator gave them. *)

From Stdlib Require Import QArith.
From stdpp Require Import gmap strings list fin_maps.

Local Open Scope stdpp_scope.

(** ** Instruments (client library objects) *)

(** The three instrument types the package creates. A histogram is created
    with its bucket upper bounds, written as the source writes them. *)
Inductive InstrumentKind : Type :=
  | Counter
  | Gauge
  | Histogram (buckets : list Q).

(** A live instrument object. [inst_id] is the address of the object: two
    references denote the same object exactly when their ids agree. The other
    fields are what the object was created from. *)
Record Instrument : Type := mkInstrument {
  inst_id : nat;
  inst_kind : InstrumentKind;
  inst_name : string;
  inst_help : string;
  inst_labels : gmap string string
}.

(** A value of interface type [prometheus.Metric]: [None] is the nil
    interface. *)
Abbreviation Metric := (option Instrument).

(** The client library's interfaces a stored instrument is asserted to. *)
Inductive Interface : Type := IGauge | ICounter | IHistogram.

(** Method sets: a gauge object has every method of the counter interface
    (Inc, Add); a counter lacks Set, Dec and Sub; only a histogram has
    Observe. *)
Definition implements (k : InstrumentKind) (i : Interface) : bool :=
  match i, k with
  | IGauge, Gauge => true
  | ICounter, Counter => true
  | ICounter, Gauge => true
  | IHistogram, Histogram _ => true
  | _, _ => false
  end.

(** ** Results of calls *)

(** A call either returns or panics. Every panic of this file is raised
    before the call has written anything, so a panicking call leaves the
    registry as it found it. *)
Inductive outcome (A : Type) : Type :=
  | Returns (a : A)
  | Panics.
Arguments Returns {A} a.
Arguments Panics {A}.

(** [x.(T)]: a type assertion on an interface value. It panics on nil and on
    an object that does not implement [T]. *)
Definition type_assert (i : Interface) (x : Metric) : outcome Instrument :=
  match x with
  | Some o => if implements (inst_kind o) i then Returns o else Panics
  | None => Panics
  end.

(** ** The instrument factory *)

(** Allocation: the next free object address is threaded through every
    creation. *)
Definition Alloc (A : Type) : Type := nat -> A * nat.

(** Modelled from the spec: [newCounter], [newGauge] and [newHistogram] are
    defined outside metrics.go. The spec's instrument factory builds a
    counter, gauge or histogram object from a name, a help text and a label
    set, and is stateless; each call yields a new object. *)
Definition newInstrument (k : InstrumentKind) (name help : string)
    (labels : gmap string string) : Alloc Instrument :=
  fun next => (mkInstrument next k name help labels, S next).

Definition newCounter (name help : string) (labels : gmap string string) : Alloc Instrument :=
  newInstrument Counter name help labels.

Definition newGauge (name help : string) (labels : gmap string string) : Alloc Instrument :=
  newInstrument Gauge name help labels.

Definition newHistogram (name help : string) (labels : gmap string string)
    (buckets : list Q) : Alloc Instrument :=
  newInstrument (Histogram buckets) name help labels.

(** ** The registry's data *)

Definition Time : Type := Z.

Definition argoNamespace : string := "argo".
Definition workflowsSubsystem : string := "workflows".
Definition DefaultMetricsServerPort : Z := 9090.
Definition DefaultMetricsServerPath : string := "/metrics".

Record ServerConfig : Type := mkServerConfig {
  Enabled : bool;
  Path : string;
  Port : Z;
  TTL : Z;
  IgnoreErrors : bool
}.

Definition SameServerAs (s other : ServerConfig) : bool :=
  bool_decide (Port s = Port other) && bool_decide (Path s = Path other)
  && Enabled s && Enabled other.

(** The struct [metric]: a custom instrument and the time it was stored. *)
Record metric : Type := mkMetric {
  metric_metric : Metric;
  lastUpdated : Time
}.

(** The zero value of [metric], which indexing a map at a missing key gives. *)
Definition zero_metric : metric := mkMetric None 0%Z.

Definition ErrorCause : Type := string.
Definition ErrorCauseOperationPanic : ErrorCause := "OperationPanic".
Definition ErrorCauseCronWorkflowSubmissionError : ErrorCause := "CronWorkflowSubmissionError".

(** The struct [Metrics], without its lock and its log-message counter
    vector (the log hook's family is not a [prometheus.Metric] and is in none
    of the maps). The twelve instrument fields are assigned once, by [New],
    from the factory, so they are never nil. *)
Record Metrics : Type := mkMetrics {
  metricsConfig : ServerConfig;
  telemetryConfig : ServerConfig;
  workflowsProcessed : Instrument;
  workflowsByPhase : gmap string Instrument;
  workflows : gmap string (list string);
  operationDurations : Instrument;
  errors : gmap string Instrument;
  customMetrics : gmap string metric;
  workqueueMetrics : gmap string Instrument;
  defaultMetricDescs : gmap string bool;
  metricNameHelps : gmap string string;
  podDeletionLatency : Instrument;
  podGCAddedToQueue : Instrument;
  podGCRemovedFromQueue : Instrument;
  podInformerAddPod : Instrument;
  podInformerUpdatePod : Instrument;
  podInformerDeletePod : Instrument;
  processNextItemDuration : Instrument;
  workflowQueueDepth : Instrument;
  podQueueDepth : Instrument;
  deadlineExceeded : Instrument
}.

(** Assignments to the map fields. *)
Definition set_workflows (v : gmap string (list string)) (m : Metrics) : Metrics :=
  mkMetrics (metricsConfig m) (telemetryConfig m) (workflowsProcessed m)
    (workflowsByPhase m) v (operationDurations m) (errors m)
    (customMetrics m) (workqueueMetrics m) (defaultMetricDescs m)
    (metricNameHelps m) (podDeletionLatency m) (podGCAddedToQueue m)
    (podGCRemovedFromQueue m) (podInformerAddPod m) (podInformerUpdatePod m)
    (podInformerDeletePod m) (processNextItemDuration m)
    (workflowQueueDepth m) (podQueueDepth m) (deadlineExceeded m).

Definition set_customMetrics (v : gmap string metric) (m : Metrics) : Metrics :=
  mkMetrics (metricsConfig m) (telemetryConfig m) (workflowsProcessed m)
    (workflowsByPhase m) (workflows m) (operationDurations m) (errors m)
    v (workqueueMetrics m) (defaultMetricDescs m)
    (metricNameHelps m) (podDeletionLatency m) (podGCAddedToQueue m)
    (podGCRemovedFromQueue m) (podInformerAddPod m) (podInformerUpdatePod m)
    (podInformerDeletePod m) (processNextItemDuration m)
    (workflowQueueDepth m) (podQueueDepth m) (deadlineExceeded m).

Definition set_workqueueMetrics (v : gmap string Instrument) (m : Metrics) : Metrics :=
  mkMetrics (metricsConfig m) (telemetryConfig m) (workflowsProcessed m)
    (workflowsByPhase m) (workflows m) (operationDurations m) (errors m)
    (customMetrics m) v (defaultMetricDescs m)
    (metricNameHelps m) (podDeletionLatency m) (podGCAddedToQueue m)
    (podGCRemovedFromQueue m) (podInformerAddPod m) (podInformerUpdatePod m)
    (podInformerDeletePod m) (processNextItemDuration m)
    (workflowQueueDepth m) (podQueueDepth m) (deadlineExceeded m).

Definition set_defaultMetricDescs (v : gmap string bool) (m : Metrics) : Metrics :=
  mkMetrics (metricsConfig m) (telemetryConfig m) (workflowsProcessed m)
    (workflowsByPhase m) (workflows m) (operationDurations m) (errors m)
    (customMetrics m) (workqueueMetrics m) v
    (metricNameHelps m) (podDeletionLatency m) (podGCAddedToQueue m)
    (podGCRemovedFromQueue m) (podInformerAddPod m) (podInformerUpdatePod m)
    (podInformerDeletePod m) (processNextItemDuration m)
    (workflowQueueDepth m) (podQueueDepth m) (deadlineExceeded m).

Definition set_metricNameHelps (v : gmap string string) (m : Metrics) : Metrics :=
  mkMetrics (metricsConfig m) (telemetryConfig m) (workflowsProcessed m)
    (workflowsByPhase m) (workflows m) (operationDurations m) (errors m)
    (customMetrics m) (workqueueMetrics m) (defaultMetricDescs m)
    v (podDeletionLatency m) (podGCAddedToQueue m)
    (podGCRemovedFromQueue m) (podInformerAddPod m) (podInformerUpdatePod m)
    (podInformerDeletePod m) (processNextItemDuration m)
    (workflowQueueDepth m) (podQueueDepth m) (deadlineExceeded m).

(** ** Registration errors *)

(** The two errors [UpsertCustomMetric] builds with [fmt.Errorf], with the
    values it formats into them. *)
Inductive RegistrationError : Type :=
  | DescriptorCollision (desc : string)
  | HelpTextMismatch (name help existingHelp : string).

(** The text of each error. *)
Definition Error (e : RegistrationError) : string :=
  match e with
  | DescriptorCollision desc =>
      "metric '" +:+ desc +:+ "' is already in use by the system, please use a different name"
  | HelpTextMismatch name help existingHelp =>
      "metric '" +:+ name +:+ "' has help string '" +:+ help +:+ "' but should have '"
      +:+ existingHelp +:+ "' (help strings must be identical for metrics of the same name)"
  end.

(** A Go [error]: [None] is nil. *)
Abbreviation error := (option RegistrationError).

(** [v, ok := m[k]]: the value (the zero value when absent) and whether the
    key is present. *)
Definition comma_ok {V : Type} (zero : V) (m : gmap string V) (k : string) : V * bool :=
  match m !! k with
  | Some v => (v, true)
  | None => (zero, false)
  end.

(** ** The registry's operations *)

(** What the registry calls but metrics.go does not define. *)
Class Externals : Type := {
  (** [i.Desc().String()], of the client library. *)
  Desc_String : Instrument -> string;
  (** [recoverMetricNameAndHelpFromDesc]. [None] stands for a call that
      panics, so that what follows holds whether or not the helper is
      total. *)
  recoverMetricNameAndHelpFromDesc : string -> option (string * string);
  (** The constructors of the per-phase gauges and the per-cause counters. *)
  getWorkflowPhaseGauges : Alloc (gmap string Instrument);
  getErrorCounters : Alloc (gmap string Instrument)
}.

Section Registry.

Context {ext : Externals}.

(** The twelve instrument fields, in the order [allMetrics] lists them. *)
Definition builtinMetrics (m : Metrics) : list Instrument :=
  [ workflowsProcessed m; operationDurations m; podDeletionLatency m;
    podGCAddedToQueue m; podGCRemovedFromQueue m; podInformerAddPod m;
    podInformerUpdatePod m; podInformerDeletePod m; processNextItemDuration m;
    workflowQueueDepth m; podQueueDepth m; deadlineExceeded m ].

(** [for _, v := range m]: every value once. Go leaves the order open;
    [ranged m vs] says [vs] is one order the loop may visit the values in,
    and [range_values] is one such order. *)
Definition range_values {V : Type} (m : gmap string V) : list V := (map_to_list m).*2.
Definition ranged {V : Type} (m : gmap string V) (vs : list V) : Prop :=
  vs ≡ₚ range_values m.

(** The elements [allMetrics] appends, given the order of each of its four
    loops. *)
Definition allMetrics_of (m : Metrics) (phases errs queues : list Instrument)
    (customs : list metric) : list Metric :=
  (Some <$> builtinMetrics m) ++ (Some <$> phases) ++ (Some <$> errs)
  ++ (Some <$> queues) ++ (metric_metric <$> customs).

(** [allMetrics], with each loop in the order of [range_values]. *)
Definition allMetrics (m : Metrics) : list Metric :=
  allMetrics_of m (range_values (workflowsByPhase m)) (range_values (errors m))
    (range_values (workqueueMetrics m)) (range_values (customMetrics m)).

(** [allMetrics], in any order the four loops may take. *)
Definition allMetrics_returns (m : Metrics) (l : list Metric) : Prop :=
  ∃ phases errs queues customs,
    ranged (workflowsByPhase m) phases ∧ ranged (errors m) errs
    ∧ ranged (workqueueMetrics m) queues ∧ ranged (customMetrics m) customs
    ∧ l = allMetrics_of m phases errs queues customs.

(** The loop of [New] over [allMetrics()]: a nil element makes
    [metric.Desc()] panic. *)
Fixpoint recordDescs (l : list Metric) (descs : gmap string bool) : outcome (gmap string bool) :=
  match l with
  | [] => Returns descs
  | None :: _ => Panics
  | Some i :: l' => recordDescs l' (<[Desc_String i := true]> descs)
  end.

(** [New]. The fields are evaluated in the order the literal writes them.
    Registering the log hook and its counter vector is left out. *)
Definition New (metricsConfig telemetryConfig : ServerConfig) (next : nat)
    : outcome (Metrics * nat) :=
  let '(workflowsProcessed, next) :=
    newCounter "workflows_processed_count" "Number of workflow updates processed" ∅ next in
  let '(workflowsByPhase, next) := getWorkflowPhaseGauges next in
  let '(operationDurations, next) :=
    newHistogram "operation_duration_seconds" "Histogram of durations of operations" ∅
      [1#10; 25#100; 5#10; 75#100; 1#1; 125#100; 15#10; 175#100; 2#1; 25#10; 3#1]%Q next in
  let '(errors, next) := getErrorCounters next in
  let '(podDeletionLatency, next) :=
    newGauge "wcustom_pod_deletion_latency" "Latency for pod deletion (ms)" ∅ next in
  let '(podGCAddedToQueue, next) :=
    newCounter "wcustom_pod_gc_added_to_queue" "Pod GC requests added to queue" ∅ next in
  let '(podGCRemovedFromQueue, next) :=
    newCounter "wcustom_pod_gc_removed_from_queue" "Pod GC requests removed from queue" ∅ next in
  let '(podInformerAddPod, next) :=
    newCounter "wcustom_pod_informer_add_pod" "Pod informer notified that a pod was added" ∅ next in
  let '(podInformerUpdatePod, next) :=
    newCounter "wcustom_pod_informer_update_pod" "Pod informer notified that a pod was updated" ∅ next in
  let '(podInformerDeletePod, next) :=
    newCounter "wcustom_pod_informer_delete_pod" "Pod informer notified that a pod was deleted" ∅ next in
  let '(processNextItemDuration, next) :=
    newGauge "wcustom_process_next_item_duration" "Latency for processNextItem (ms)" ∅ next in
  let '(workflowQueueDepth, next) :=
    newGauge "wcustom_workflow_queue_depth" "Depth of workflow queue" ∅ next in
  let '(podQueueDepth, next) :=
    newGauge "wcustom_pod_queue_depth" "Depth of pod queue" ∅ next in
  let '(deadlineExceeded, next) :=
    newCounter "wcustom_deadline_exceeded" "Deadline exceeded" ∅ next in
  let metrics :=
    mkMetrics metricsConfig telemetryConfig workflowsProcessed workflowsByPhase ∅
      operationDurations errors ∅ ∅ ∅ ∅ podDeletionLatency podGCAddedToQueue
      podGCRemovedFromQueue podInformerAddPod podInformerUpdatePod
      podInformerDeletePod processNextItemDuration workflowQueueDepth
      podQueueDepth deadlineExceeded in
  match recordDescs (allMetrics metrics) (defaultMetricDescs metrics) with
  | Returns descs => Returns (set_defaultMetricDescs descs metrics, next)
  | Panics => Panics
  end.

(** [StopRealtimeMetricsForKey]. *)
Definition StopRealtimeMetricsForKey (key : string) (m : Metrics) : Metrics :=
  match workflows m !! key with
  | None => m
  | Some realtimeMetrics =>
      let customMetrics' :=
        foldl (fun cm metric => delete metric cm) (customMetrics m) realtimeMetrics in
      set_workflows (delete key (workflows m)) (set_customMetrics customMetrics' m)
  end.

(** [GetCustomMetric]: the stored instrument, or nil. *)
Definition GetCustomMetric (key : string) (m : Metrics) : Metric :=
  metric_metric (default zero_metric (customMetrics m !! key)).

(** [UpsertCustomMetric]; [now] is what [time.Now()] reads. The result is the
    returned error and the registry after the call. *)
Definition UpsertCustomMetric (key ownerKey : string) (newMetric : Metric)
    (realtime : bool) (now : Time) (m : Metrics) : outcome (error * Metrics) :=
  match newMetric with
  | None => Panics
  | Some i =>
      let metricDesc := Desc_String i in
      let '(_, inUse) := comma_ok false (defaultMetricDescs m) metricDesc in
      if inUse then Returns (Some (DescriptorCollision metricDesc), m)
      else
        match recoverMetricNameAndHelpFromDesc metricDesc with
        | None => Panics
        | Some (name, help) =>
            let '(existingHelp, inUse) := comma_ok EmptyString (metricNameHelps m) name in
            if inUse && bool_decide (help ≠ existingHelp)
            then Returns (Some (HelpTextMismatch name help existingHelp), m)
            else
              let m1 := set_metricNameHelps (<[name := help]> (metricNameHelps m)) m in
              let m2 := set_customMetrics (<[key := mkMetric newMetric now]> (customMetrics m1)) m1 in
              let m3 :=
                if realtime
                then set_workflows
                       (<[ownerKey := default [] (workflows m2 !! ownerKey) ++ [key]]> (workflows m2)) m2
                else m2 in
              Returns (None, m3)
        end
  end.

(** The three accessors of the work-queue metrics provider. [next] is the
    allocator before the call; the result is the returned instrument, the
    allocator and the registry after it. *)
Definition NewDepthMetric (name : string) (next : nat) (m : Metrics)
    : outcome (Instrument * nat * Metrics) :=
  let key := name +:+ "-depth" in
  let '(next', m') :=
    match workqueueMetrics m !! key with
    | Some _ => (next, m)
    | None =>
        let '(g, next') :=
          newGauge "queue_depth_count" "Depth of the queue" {[ "queue_name" := name ]} next in
        (next', set_workqueueMetrics (<[key := g]> (workqueueMetrics m)) m)
    end in
  match type_assert IGauge (workqueueMetrics m' !! key) with
  | Returns g => Returns (g, next', m')
  | Panics => Panics
  end.

Definition NewAddsMetric (name : string) (next : nat) (m : Metrics)
    : outcome (Instrument * nat * Metrics) :=
  let key := name +:+ "-adds" in
  let '(next', m') :=
    match workqueueMetrics m !! key with
    | Some _ => (next, m)
    | None =>
        let '(c, next') :=
          newCounter "queue_adds_count" "Adds to the queue" {[ "queue_name" := name ]} next in
        (next', set_workqueueMetrics (<[key := c]> (workqueueMetrics m)) m)
    end in
  match type_assert ICounter (workqueueMetrics m' !! key) with
  | Returns c => Returns (c, next', m')
  | Panics => Panics
  end.

Definition NewLatencyMetric (name : string) (next : nat) (m : Metrics)
    : outcome (Instrument * nat * Metrics) :=
  let key := name +:+ "-latency" in
  let '(next', m') :=
    match workqueueMetrics m !! key with
    | Some _ => (next, m)
    | None =>
        let '(h, next') :=
          newHistogram "queue_latency" "Time objects spend waiting in the queue"
            {[ "queue_name" := name ]} [1#1; 5#1; 20#1; 60#1; 180#1]%Q next in
        (next', set_workqueueMetrics (<[key := h]> (workqueueMetrics m)) m)
    end in
  match type_assert IHistogram (workqueueMetrics m' !! key) with
  | Returns h => Returns (h, next', m')
  | Panics => Panics
  end.

(** ** Calls on a registry, and their traces *)

(** What a sequence of calls can change: the allocator, the slices that
    [allMetrics] has handed out (a slice is named by its position in
    [snapshots]), and the registry. *)
Record World : Type := mkWorld {
  next_object : nat;
  snapshots : list (list Metric);
  registry : Metrics
}.

Definition with_registry (m : Metrics) (w : World) : World :=
  mkWorld (next_object w) (snapshots w) m.

(** [allMetrics] returns a slice it has just allocated. *)
Definition store_snapshot (l : list Metric) (w : World) : World :=
  mkWorld (next_object w) (snapshots w ++ [l]) (registry w).

Inductive Call : Type :=
  | CallUpsertCustomMetric (key ownerKey : string) (newMetric : Metric)
      (realtime : bool) (now : Time)
  | CallStopRealtimeMetricsForKey (key : string)
  | CallGetCustomMetric (key : string)
  | CallAllMetrics
  | CallNewDepthMetric (name : string)
  | CallNewAddsMetric (name : string)
  | CallNewLatencyMetric (name : string).

Definition provide (f : string -> nat -> Metrics -> outcome (Instrument * nat * Metrics))
    (name : string) (w : World) : outcome World :=
  match f name (next_object w) (registry w) with
  | Returns (_, next', m') => Returns (mkWorld next' (snapshots w) m')
  | Panics => Panics
  end.

(** The world after a call that returns; [allMetrics] runs its loops in the
    order of [range_values]. *)
Definition exec (c : Call) (w : World) : outcome World :=
  match c with
  | CallUpsertCustomMetric key ownerKey newMetric realtime now =>
      match UpsertCustomMetric key ownerKey newMetric realtime now (registry w) with
      | Returns (_, m') => Returns (with_registry m' w)
      | Panics => Panics
      end
  | CallStopRealtimeMetricsForKey key =>
      Returns (with_registry (StopRealtimeMetricsForKey key (registry w)) w)
  | CallGetCustomMetric _ => Returns w
  | CallAllMetrics => Returns (store_snapshot (allMetrics (registry w)) w)
  | CallNewDepthMetric name => provide NewDepthMetric name w
  | CallNewAddsMetric name => provide NewAddsMetric name w
  | CallNewLatencyMetric name => provide NewLatencyMetric name w
  end.

Fixpoint run (cs : list Call) (w : World) : outcome World :=
  match cs with
  | [] => Returns w
  | c :: cs' =>
      match exec c w with
      | Returns w1 => run cs' w1
      | Panics => Panics
      end
  end.

(** One returning call, with [allMetrics] free to visit each map in any
    order. *)
Inductive step (w : World) : Call -> World -> Prop :=
  | step_allMetrics l :
      allMetrics_returns (registry w) l ->
      step w CallAllMetrics (store_snapshot l w)
  | step_exec c w' :
      c <> CallAllMetrics -> exec c w = Returns w' -> step w c w'.

Inductive steps : World -> list Call -> World -> Prop :=
  | steps_nil w : steps w [] w
  | steps_cons w c w1 cs w2 : step w c w1 -> steps w1 cs w2 -> steps w (c :: cs) w2.

(** The world [New] leaves, and the worlds calls lead to from it. *)
Definition fresh (w : World) : Prop :=
  ∃ metricsConfig telemetryConfig next0 m next,
    New metricsConfig telemetryConfig next0 = Returns (m, next)
    ∧ w = mkWorld next [] m.

Definition reachable (w : World) : Prop :=
  ∃ w0 cs, fresh w0 ∧ steps w0 cs w.

(** The instruments the system itself registers: the twelve fields, the
    per-phase gauges and the per-cause counters. *)
Definition systemMetrics (m : Metrics) : list Instrument :=
  builtinMetrics m ++ range_values (workflowsByPhase m) ++ range_values (errors m).

(** [k] is in the index list of owner [o]. *)
Definition tracked (m : Metrics) (o k : string) : Prop :=
  ∃ ks, workflows m !! o = Some ks ∧ k ∈ ks.

(** Every key of every owner's index has an entry in [customMetrics]. *)
Definition index_consistent (m : Metrics) : Prop :=
  ∀ o k, tracked m o k -> is_Some (customMetrics m !! k).

(** How often [k] occurs in a list of keys. *)
Definition occurrences (k : string) (ks : list string) : nat :=
  length (filter (fun k' => k' = k) ks).

(** The instrument is read as having this name and help text. *)
Definition named (i : Instrument) (name help : string) : Prop :=
  recoverMetricNameAndHelpFromDesc (Desc_String i) = Some (name, help).

(** The three kinds of queue instrument, their keys in [workqueueMetrics],
    and what each accessor creates. *)
Inductive QueueKind : Type := depth | adds | latency.

Definition queueKey (q : QueueKind) (name : string) : string :=
  match q with
  | depth => name +:+ "-depth"
  | adds => name +:+ "-adds"
  | latency => name +:+ "-latency"
  end.

Definition queueCall (q : QueueKind) (name : string) : Call :=
  match q with
  | depth => CallNewDepthMetric name
  | adds => CallNewAddsMetric name
  | latency => CallNewLatencyMetric name
  end.

Definition queueAccessor (q : QueueKind)
    : string -> nat -> Metrics -> outcome (Instrument * nat * Metrics) :=
  match q with
  | depth => NewDepthMetric
  | adds => NewAddsMetric
  | latency => NewLatencyMetric
  end.

Definition queueInstrument (q : QueueKind) (name : string) (id : nat) : Instrument :=
  match q with
  | depth =>
      mkInstrument id Gauge "queue_depth_count" "Depth of the queue" {[ "queue_name" := name ]}
  | adds =>
      mkInstrument id Counter "queue_adds_count" "Adds to the queue" {[ "queue_name" := name ]}
  | latency =>
      mkInstrument id (Histogram [1#1; 5#1; 20#1; 60#1; 180#1]%Q) "queue_latency"
        "Time objects spend waiting in the queue" {[ "queue_name" := name ]}
  end.

(** ** Notions the statements use *)

(** The registry after a registration that went through. *)
Definition stored (key ownerKey : string) (i : Instrument) (realtime : bool)
    (now : Time) (name help : string) (m : Metrics) : Metrics :=
  let m1 := set_metricNameHelps (<[name := help]> (metricNameHelps m)) m in
  let m2 := set_customMetrics (<[key := mkMetric (Some i) now]> (customMetrics m1)) m1 in
  if realtime
  then set_workflows
         (<[ownerKey := default [] (workflows m2 !! ownerKey) ++ [key]]> (workflows m2)) m2
  else m2.

(** No key is registered as realtime under two owners. *)
Definition one_owner (cs : list Call) : Prop :=
  ∀ k o1 o2 i1 i2 t1 t2,
    CallUpsertCustomMetric k o1 i1 true t1 ∈ cs ->
    CallUpsertCustomMetric k o2 i2 true t2 ∈ cs ->
    o1 = o2.

(** Every tracked key has an entry, and was registered as realtime for its
    owner by one of the calls [seen]. *)
Definition index_justified (seen : list Call) (m : Metrics) : Prop :=
  ∀ o k, tracked m o k ->
    is_Some (customMetrics m !! k)
    ∧ ∃ i t, CallUpsertCustomMetric k o i true t ∈ seen.

(** Calls that neither remove an owner nor register under [key]. *)
Definition keeps (key : string) (c : Call) : Prop :=
  match c with
  | CallStopRealtimeMetricsForKey _ => False
  | CallUpsertCustomMetric k _ _ _ _ => k ≠ key
  | _ => True
  end.

(** The last character of a string, [d] when it is empty. *)
Fixpoint last_ascii (d : Ascii.ascii) (s : string) : Ascii.ascii :=
  match s with
  | EmptyString => d
  | String a s' => last_ascii a s'
  end.

(** Every stored queue instrument was stored by one of the calls [seen]. *)
Definition queue_justified (seen : list Call) (m : Metrics) : Prop :=
  ∀ key, is_Some (workqueueMetrics m !! key) ->
    ∃ q name, key = queueKey q name ∧ queueCall q name ∈ seen.

(** ** Running calls *)

Definition returns {A : Type} (o : outcome A) : bool :=
  match o with
  | Returns _ => true
  | Panics => false
  end.

(** The world after a call, returned or panicked: a panicking call leaves
    the world as it found it. *)
Definition after (c : Call) (w : World) : World :=
  match exec c w with
  | Returns w' => w'
  | Panics => w
  end.

Definition after_all (cs : list Call) (w : World) : World :=
  foldl (fun w c => after c w) w cs.

Fixpoint all_return (cs : list Call) (w : World) : bool :=
  match cs with
  | [] => true
  | c :: cs' => returns (exec c w) && all_return cs' (after c w)
  end.

(** The registration returns nil. *)
Definition registers (key ownerKey : string) (newMetric : Metric) (realtime : bool)
    (now : Time) (m : Metrics) : bool :=
  match UpsertCustomMetric key ownerKey newMetric realtime now m with
  | Returns (None, _) => true
  | _ => false
  end.

End Registry.

(** ** Updates of the system's instruments

    The methods that write to an instrument of the system change the
    instrument object, not the registry. What an object has been sent is kept
    per object address, oldest first. *)

(** A float64, as its 64 bits: the methods pass it on and compute nothing
    with it. *)
Definition float64 : Type := N.

(** One method call on an instrument object. [DoSet v] is
    [Set(float64(v))], for the integer [v] the method was given. *)
Inductive Observation : Type :=
  | DoInc
  | DoSet (v : Z)
  | DoObserve (v : float64).

Abbreviation Readings := (gmap nat (list Observation)).

Definition send (i : Instrument) (o : Observation) (r : Readings) : Readings :=
  <[inst_id i := default [] (r !! inst_id i) ++ [o]]> r.

Definition UpdatePodDeletionLatency (latencyMs : Z) (m : Metrics) (r : Readings) : Readings :=
  send (podDeletionLatency m) (DoSet latencyMs) r.

Definition IncrementPodGCAddedToQueue (m : Metrics) (r : Readings) : Readings :=
  send (podGCAddedToQueue m) DoInc r.

Definition IncrementPodGCRemovedFromQueue (m : Metrics) (r : Readings) : Readings :=
  send (podGCRemovedFromQueue m) DoInc r.

Definition IncrementPodInformerAddPod (m : Metrics) (r : Readings) : Readings :=
  send (podInformerAddPod m) DoInc r.

Definition IncrementPodInformerUpdatePod (m : Metrics) (r : Readings) : Readings :=
  send (podInformerUpdatePod m) DoInc r.

Definition IncrementPodInformerDeletePod (m : Metrics) (r : Readings) : Readings :=
  send (podInformerDeletePod m) DoInc r.

Definition UpdateProcessNextItemDuration (latencyMs : Z) (m : Metrics) (r : Readings) : Readings :=
  send (processNextItemDuration m) (DoSet latencyMs) r.

Definition UpdateWorkflowQueueDepth (depth : Z) (m : Metrics) (r : Readings) : Readings :=
  send (workflowQueueDepth m) (DoSet depth) r.

Definition UpdatePodQueueDepth (depth : Z) (m : Metrics) (r : Readings) : Readings :=
  send (podQueueDepth m) (DoSet depth) r.

Definition IncrementDeadlineExceeded (m : Metrics) (r : Readings) : Readings :=
  send (deadlineExceeded m) DoInc r.

Definition OperationCompleted (durationSeconds : float64) (m : Metrics) (r : Readings)
    : Readings :=
  send (operationDurations m) (DoObserve durationSeconds) r.

(** The three methods that index a map first: at a missing key the map
    gives the nil interface, and the method call on it panics. *)
Definition SetWorkflowPhaseGauge (phase : string) (num : Z) (m : Metrics) (r : Readings)
    : outcome Readings :=
  match workflowsByPhase m !! phase with
  | Some g => Returns (send g (DoSet num) r)
  | None => Panics
  end.

Definition OperationPanic (m : Metrics) (r : Readings) : outcome Readings :=
  match errors m !! ErrorCauseOperationPanic with
  | Some c => Returns (send c DoInc r)
  | None => Panics
  end.

Definition CronWorkflowSubmissionError (m : Metrics) (r : Readings) : outcome Readings :=
  match errors m !! ErrorCauseCronWorkflowSubmissionError with
  | Some c => Returns (send c DoInc r)
  | None => Panics
  end.

(** A call of one of the ten methods that write to an instrument field
    declared after the log counter, and the number of its method in the
    order metrics.go defines them. *)
Inductive Update : Type :=
  | CallUpdatePodDeletionLatency (latencyMs : Z)
  | CallIncrementPodGCAddedToQueue
  | CallIncrementPodGCRemovedFromQueue
  | CallIncrementPodInformerAddPod
  | CallIncrementPodInformerUpdatePod
  | CallIncrementPodInformerDeletePod
  | CallUpdateProcessNextItemDuration (latencyMs : Z)
  | CallUpdateWorkflowQueueDepth (depth : Z)
  | CallUpdatePodQueueDepth (depth : Z)
  | CallIncrementDeadlineExceeded.

Definition method (u : Update) : nat :=
  match u with
  | CallUpdatePodDeletionLatency _ => 0
  | CallIncrementPodGCAddedToQueue => 1
  | CallIncrementPodGCRemovedFromQueue => 2
  | CallIncrementPodInformerAddPod => 3
  | CallIncrementPodInformerUpdatePod => 4
  | CallIncrementPodInformerDeletePod => 5
  | CallUpdateProcessNextItemDuration _ => 6
  | CallUpdateWorkflowQueueDepth _ => 7
  | CallUpdatePodQueueDepth _ => 8
  | CallIncrementDeadlineExceeded => 9
  end.

Definition update (u : Update) (m : Metrics) (r : Readings) : Readings :=
  match u with
  | CallUpdatePodDeletionLatency latencyMs => UpdatePodDeletionLatency latencyMs m r
  | CallIncrementPodGCAddedToQueue => IncrementPodGCAddedToQueue m r
  | CallIncrementPodGCRemovedFromQueue => IncrementPodGCRemovedFromQueue m r
  | CallIncrementPodInformerAddPod => IncrementPodInformerAddPod m r
  | CallIncrementPodInformerUpdatePod => IncrementPodInformerUpdatePod m r
  | CallIncrementPodInformerDeletePod => IncrementPodInformerDeletePod m r
  | CallUpdateProcessNextItemDuration latencyMs => UpdateProcessNextItemDuration latencyMs m r
  | CallUpdateWorkflowQueueDepth d => UpdateWorkflowQueueDepth d m r
  | CallUpdatePodQueueDepth d => UpdatePodQueueDepth d m r
  | CallIncrementDeadlineExceeded => IncrementDeadlineExceeded m r
  end.

(** ** The log hook

    [logMetric], the counter vector with the label level, is kept apart from
    [Metrics]: a series per label value, each with the number of times it
    was incremented. *)

(** The levels of the logging library, with their names. *)
Class Logrus : Type := {
  Level : Type;
  Level_String : Level -> string;
  InfoLevel : Level;
  WarnLevel : Level;
  ErrorLevel : Level
}.

Abbreviation CounterVec := (gmap string nat).

(** [v.WithLabelValues(lv)]: the series of the label value, created at zero
    when the vector has none. *)
Definition WithLabelValues (lv : string) (v : CounterVec) : CounterVec :=
  match v !! lv with
  | Some _ => v
  | None => <[lv := 0]> v
  end.

(** [v.WithLabelValues(lv).Inc()]. *)
Definition WithLabelValues_Inc (lv : string) (v : CounterVec) : CounterVec :=
  let v' := WithLabelValues lv v in
  <[lv := S (default 0 (v' !! lv))]> v'.

Section LogHook.

Context {logrus : Logrus}.

Definition Levels : list Level := [InfoLevel; WarnLevel; ErrorLevel].

(** [Fire], given the level of the entry: the error returned and the vector
    after the call. *)
Definition Fire (level : Level) (v : CounterVec) : error * CounterVec :=
  (None, WithLabelValues_Inc (Level_String level) v).

(** The counter vector [New] leaves: created empty, then one series per
    level of [Levels]. *)
Definition New_logMetric : CounterVec :=
  foldl (fun v level => WithLabelValues (Level_String level) v) ∅ Levels.

(** The vector after the hook has fired for each of [levels] in turn. *)
Definition fired (levels : list Level) (v : CounterVec) : CounterVec :=
  foldl (fun v level => (Fire level v).2) v levels.

End LogHook.

(** ** One implementation of the externals

    The properties below are proved for every implementation of
    [Externals]. To run the registry on concrete calls, this part gives one:
    descriptor strings in the client library's layout, a reader of names and
    help texts for that layout, five per-phase gauges and the two per-cause
    counters of the error causes metrics.go declares. None of it translates
    code of metrics.go. *)

Definition quote : string := String (Ascii.ascii_of_nat 34) EmptyString.

Definition descPrefix : string :=
  "Desc{fqName: " +:+ quote +:+ argoNamespace +:+ "_" +:+ workflowsSubsystem +:+ "_".
Definition descHelp : string := quote +:+ ", help: " +:+ quote.
Definition descLabels : string := quote +:+ ", constLabels: {".

Definition label_String (kv : string * string) : string :=
  kv.1 +:+ "=" +:+ quote +:+ kv.2 +:+ quote.

Fixpoint join (sep : string) (l : list string) : string :=
  match l with
  | [] => EmptyString
  | [s] => s
  | s :: l' => s +:+ sep +:+ join sep l'
  end.

(** The descriptor string in the client library's layout: fully qualified
    name, help, constant labels, no variable labels. *)
Definition sample_Desc_String (i : Instrument) : string :=
  descPrefix +:+ inst_name i +:+ descHelp +:+ inst_help i +:+ descLabels
  +:+ join "," (label_String <$> map_to_list (inst_labels i))
  +:+ "}, variableLabels: []}".

Definition drop_string (n : nat) (s : string) : string :=
  String.substring n (String.length s - n) s.

(** Reads the name and the help back from a descriptor string of that
    layout: the shortest non-empty name after the prefix, then the shortest
    non-empty help; [None] when the string has another shape. *)
Definition sample_recover (desc : string) : option (string * string) :=
  if String.prefix descPrefix desc then
    let rest := drop_string (String.length descPrefix) desc in
    match String.index 1 descHelp rest with
    | None => None
    | Some i =>
        let rest' := drop_string (i + String.length descHelp) rest in
        match String.index 1 descLabels rest' with
        | None => None
        | Some j => Some (String.substring 0 i rest, String.substring 0 j rest')
        end
    end
  else None.

(** Allocates one instrument per key of [keys], in order. *)
Fixpoint newInstruments (mk : string -> Alloc Instrument) (keys : list string)
    : Alloc (gmap string Instrument) :=
  fun next =>
    match keys with
    | [] => (∅, next)
    | k :: keys' =>
        let '(i, next1) := mk k next in
        let '(rest, next2) := newInstruments mk keys' next1 in
        (<[k := i]> rest, next2)
    end.

Definition sample_getWorkflowPhaseGauges : Alloc (gmap string Instrument) :=
  newInstruments
    (fun phase => newGauge "count" "Number of Workflows currently accessible by the controller by status"
                    {[ "status" := phase ]})
    ["Pending"; "Running"; "Succeeded"; "Failed"; "Error"].

Definition sample_getErrorCounters : Alloc (gmap string Instrument) :=
  newInstruments
    (fun cause => newCounter "error_count" "Number of errors encountered by the controller by cause"
                    {[ "cause" := cause ]})
    [ErrorCauseOperationPanic; ErrorCauseCronWorkflowSubmissionError].

(** ** A registry to run *)

(** The helpers of the part above, as the registry's externals. *)
Definition sample : Externals := {|
  Desc_String := sample_Desc_String;
  recoverMetricNameAndHelpFromDesc := sample_recover;
  getWorkflowPhaseGauges := sample_getWorkflowPhaseGauges;
  getErrorCounters := sample_getErrorCounters
|}.

Definition sample_config : ServerConfig :=
  mkServerConfig true DefaultMetricsServerPath DefaultMetricsServerPort 0 false.

Section Sample.

#[local] Existing Instance sample.

(** A registry value to fall back on where [New] is read and could, by its
    type, have panicked. *)
Definition no_registry : Metrics :=
  let i := mkInstrument 0 Counter EmptyString EmptyString ∅ in
  mkMetrics sample_config sample_config i ∅ ∅ i ∅ ∅ ∅ ∅ ∅ i i i i i i i i i i.

(** The world [New] leaves, with the first object at address 0. *)
Definition sample_world : World :=
  match New sample_config sample_config 0 with
  | Returns (m, next) => mkWorld next [] m
  | Panics => mkWorld 0 [] no_registry
  end.

(** Two instruments a workflow registers. *)
Definition duration_gauge : Instrument :=
  mkInstrument 100 Gauge "step_duration" "Duration of the step" ∅.
Definition retries_counter : Instrument :=
  mkInstrument 101 Counter "step_retries" "Retries of the step" ∅.

(** An instrument with the name of [duration_gauge] and another help. *)
Definition duration_other_help : Instrument :=
  mkInstrument 104 Gauge "step_duration" "Seconds the step took" ∅.

(** An instrument with the name of the system's [workflowsProcessed] and a
    help text of its own, and one with the very descriptor of
    [workflowsProcessed]. *)
Definition processed_other_help : Instrument :=
  mkInstrument 102 Counter "workflows_processed_count" "Workflows seen" ∅.
Definition processed_again : Instrument :=
  mkInstrument 103 Counter "workflows_processed_count"
    "Number of workflow updates processed" ∅.

(** Calls run below, and the worlds they lead to from [sample_world]. *)
Definition register_duration : Call :=
  CallUpsertCustomMetric "k" "run-A" (Some duration_gauge) true 1%Z.
Definition register_duration_again : Call :=
  CallUpsertCustomMetric "k" "run-A" (Some duration_gauge) true 2%Z.
Definition register_retries_over : Call :=
  CallUpsertCustomMetric "k" "run-A" (Some retries_counter) true 2%Z.
Definition register_duration_B : Call :=
  CallUpsertCustomMetric "k" "run-B" (Some duration_gauge) true 2%Z.
Definition register_retries_B : Call :=
  CallUpsertCustomMetric "k2" "run-B" (Some retries_counter) true 2%Z.
Definition register_borrowed : Call :=
  CallUpsertCustomMetric "k1" "run-A" (Some processed_other_help) true 1%Z.
Definition stop_A : Call := CallStopRealtimeMetricsForKey "run-A".

(** One workflow has registered [duration_gauge] under key k. *)
Definition world_registered : World := after register_duration sample_world.

(** It has registered the same key a second time. *)
Definition world_registered_twice : World := after register_duration_again world_registered.

(** It has registered [retries_counter] over the same key. *)
Definition world_overwritten : World := after register_retries_over world_registered.

(** It has ended. *)
Definition world_stopped : World := after stop_A world_registered.

(** A second workflow has registered the same key, and the first has ended. *)
Definition world_shared_key : World :=
  after stop_A (after register_duration_B world_registered).

(** A second workflow has registered a key of its own, and the first has
    ended. *)
Definition world_own_keys : World :=
  after stop_A (after register_retries_B world_registered).

(** A workflow has registered the name of [workflowsProcessed] with a help
    of its own; then it has ended. *)
Definition world_borrowed : World := after register_borrowed sample_world.
Definition world_borrowed_stopped : World := after stop_A world_borrowed.

(** The owner lifecycle: m1 registered, a snapshot taken, m2 registered, a
    queue instrument obtained. *)
Definition register_m1 : Call :=
  CallUpsertCustomMetric "m1" "run-A" (Some duration_gauge) true 1%Z.
Definition register_m2 : Call :=
  CallUpsertCustomMetric "m2" "run-A" (Some retries_counter) true 2%Z.
Definition lifecycle_1 : World := after register_m1 sample_world.
Definition lifecycle_2 : World :=
  after CallAllMetrics (with_registry (registry lifecycle_1) sample_world).
Definition lifecycle_3 : World := after register_m2 lifecycle_2.
Definition lifecycle_4 : World :=
  after (CallNewDepthMetric "workflow") (with_registry (registry lifecycle_3) lifecycle_2).

(** A snapshot of [sample_world], and a registration after it. *)
Definition world_snapshot : World :=
  store_snapshot (allMetrics (registry sample_world)) sample_world.
Definition world_snapshot_registered : World := after register_duration world_snapshot.

(** A metric registered with realtime false. *)
Definition register_unowned : Call :=
  CallUpsertCustomMetric "u" "run-A" (Some retries_counter) false 3%Z.
Definition world_unowned : World := after register_unowned sample_world.

(** Two workflows registering [duration_gauge] under keys of their own. *)
Definition register_duration_k3 : Call :=
  CallUpsertCustomMetric "k3" "run-B" (Some duration_gauge) true 2%Z.
Definition world_same_name : World := after register_duration_k3 world_registered.

(** The depth and adds instruments of the queue named workflow. *)
Definition world_queues : World :=
  after (CallNewAddsMetric "workflow") (after (CallNewDepthMetric "workflow") sample_world).


End Sample.

(** * Properties *)

Section Properties.

Context {ext : Externals}.

(** ** What a call to [UpsertCustomMetric] does *)

Lemma UpsertCustomMetric_nil key ownerKey realtime now m :
  UpsertCustomMetric key ownerKey None realtime now m = Panics.
Proof. reflexivity. Qed.

Lemma UpsertCustomMetric_inv key ownerKey newMetric realtime now m err m' :
  UpsertCustomMetric key ownerKey newMetric realtime now m = Returns (err, m') ->
  ∃ i, newMetric = Some i ∧
    ((is_Some (defaultMetricDescs m !! Desc_String i)
       ∧ err = Some (DescriptorCollision (Desc_String i)) ∧ m' = m)
     ∨ (∃ name help existingHelp,
          defaultMetricDescs m !! Desc_String i = None ∧ named i name help
          ∧ metricNameHelps m !! name = Some existingHelp ∧ help ≠ existingHelp
          ∧ err = Some (HelpTextMismatch name help existingHelp) ∧ m' = m)
     ∨ (∃ name help,
          defaultMetricDescs m !! Desc_String i = None ∧ named i name help
          ∧ (metricNameHelps m !! name = None ∨ metricNameHelps m !! name = Some help)
          ∧ err = None ∧ m' = stored key ownerKey i realtime now name help m)).
Proof.
  unfold UpsertCustomMetric, comma_ok, named.
  destruct newMetric as [i|]; [|discriminate].
  intros H. exists i. split; [reflexivity|].
  destruct (defaultMetricDescs m !! Desc_String i) as [b|] eqn:Hdesc.
  { injection H as <- <-. left. eauto. }
  destruct (recoverMetricNameAndHelpFromDesc (Desc_String i)) as [[name help]|] eqn:Hrec;
    [|discriminate].
  destruct (metricNameHelps m !! name) as [existingHelp|] eqn:Hhelp; simpl in H.
  - case_bool_decide as Hne.
    + injection H as <- <-. right. left. exists name, help, existingHelp. eauto 10.
    + injection H as <- <-. right. right. exists name, help.
      subst existingHelp. eauto 10.
  - injection H as <- <-. right. right. exists name, help. eauto 10.
Qed.

Lemma UpsertCustomMetric_ok key ownerKey newMetric realtime now m m' :
  UpsertCustomMetric key ownerKey newMetric realtime now m = Returns (None, m') ->
  ∃ i name help,
    newMetric = Some i ∧ defaultMetricDescs m !! Desc_String i = None ∧ named i name help
    ∧ (metricNameHelps m !! name = None ∨ metricNameHelps m !! name = Some help)
    ∧ m' = stored key ownerKey i realtime now name help m.
Proof.
  intros H. apply UpsertCustomMetric_inv in H as (i & -> & [H|[H|H]]).
  - destruct H as (_ & [=] & _).
  - destruct H as (? & ? & ? & _ & _ & _ & _ & [=] & _).
  - destruct H as (name & help & ? & ? & ? & _ & ->). eauto 10.
Qed.

Lemma UpsertCustomMetric_error key ownerKey newMetric realtime now m e m' :
  UpsertCustomMetric key ownerKey newMetric realtime now m = Returns (Some e, m') -> m' = m.
Proof.
  intros H. apply UpsertCustomMetric_inv in H as (i & -> & [H|[H|H]]).
  - by destruct H as (_ & _ & ->).
  - by destruct H as (? & ? & ? & _ & _ & _ & _ & _ & ->).
  - by destruct H as (? & ? & _ & _ & _ & [=] & _).
Qed.

Lemma stored_customMetrics key ownerKey i realtime now name help m :
  customMetrics (stored key ownerKey i realtime now name help m)
  = <[key := mkMetric (Some i) now]> (customMetrics m).
Proof. unfold stored. by destruct realtime. Qed.

Lemma stored_workflows key ownerKey i realtime now name help m :
  workflows (stored key ownerKey i realtime now name help m)
  = if realtime
    then <[ownerKey := default [] (workflows m !! ownerKey) ++ [key]]> (workflows m)
    else workflows m.
Proof. unfold stored. by destruct realtime. Qed.

Lemma stored_metricNameHelps key ownerKey i realtime now name help m :
  metricNameHelps (stored key ownerKey i realtime now name help m)
  = <[name := help]> (metricNameHelps m).
Proof. unfold stored. by destruct realtime. Qed.

Lemma stored_workqueueMetrics key ownerKey i realtime now name help m :
  workqueueMetrics (stored key ownerKey i realtime now name help m) = workqueueMetrics m.
Proof. unfold stored. by destruct realtime. Qed.

Lemma stored_system key ownerKey i realtime now name help m :
  let m' := stored key ownerKey i realtime now name help m in
  builtinMetrics m' = builtinMetrics m ∧ workflowsByPhase m' = workflowsByPhase m
  ∧ errors m' = errors m ∧ defaultMetricDescs m' = defaultMetricDescs m.
Proof. unfold stored. by destruct realtime. Qed.

(** A rejected registration is reported with the descriptor's collision when
    the descriptor is one the system recorded, whatever else holds. *)
Lemma UpsertCustomMetric_collision key ownerKey i realtime now m :
  is_Some (defaultMetricDescs m !! Desc_String i) ->
  UpsertCustomMetric key ownerKey (Some i) realtime now m
  = Returns (Some (DescriptorCollision (Desc_String i)), m).
Proof.
  intros [b Hb]. unfold UpsertCustomMetric, comma_ok. by rewrite Hb.
Qed.

Lemma UpsertCustomMetric_mismatch key ownerKey i realtime now m name help existingHelp :
  defaultMetricDescs m !! Desc_String i = None ->
  named i name help ->
  metricNameHelps m !! name = Some existingHelp ->
  help ≠ existingHelp ->
  UpsertCustomMetric key ownerKey (Some i) realtime now m
  = Returns (Some (HelpTextMismatch name help existingHelp), m).
Proof.
  intros Hdesc Hnamed Hhelp Hne. unfold UpsertCustomMetric, comma_ok.
  rewrite Hdesc, Hnamed, Hhelp. simpl. by rewrite bool_decide_eq_true_2.
Qed.

(** ** What [New] leaves *)

Lemma recordDescs_Some (l : list Instrument) (descs : gmap string bool) :
  recordDescs (Some <$> l) descs
  = Returns (foldl (fun d i => <[Desc_String i := true]> d) descs l).
Proof.
  revert descs. induction l as [|i l IH]; intros descs; simpl; [reflexivity|].
  apply IH.
Qed.

Lemma recorded_lookup (l : list Instrument) (descs : gmap string bool) (D : string) :
  is_Some (foldl (fun d i => <[Desc_String i := true]> d) descs l !! D)
  ↔ is_Some (descs !! D) ∨ ∃ i, i ∈ l ∧ Desc_String i = D.
Proof.
  revert descs. induction l as [|i l IH]; intros descs; simpl.
  - split; [by left|]. intros [H|(i & Hi & _)]; [done|]. by apply elem_of_nil in Hi.
  - rewrite IH. split.
    + intros [H|(j & Hj & Heq)].
      * destruct (decide (Desc_String i = D)) as [Heq|Hne].
        -- right. exists i. split; [left|done].
        -- left. by rewrite lookup_insert_ne in H.
      * right. exists j. split; [by right|done].
    + intros [H|(j & Hj & Heq)].
      * left. destruct (decide (Desc_String i = D)) as [->|Hne].
        -- rewrite lookup_insert_eq. eauto.
        -- by rewrite lookup_insert_ne.
      * apply elem_of_cons in Hj as [->|Hj].
        -- left. rewrite <- Heq, lookup_insert_eq. eauto.
        -- right. eauto.
Qed.

Lemma range_values_empty {V : Type} : range_values (∅ : gmap string V) = [].
Proof. unfold range_values. by rewrite map_to_list_empty. Qed.

Lemma allMetrics_no_dynamic (m : Metrics) :
  workqueueMetrics m = ∅ -> customMetrics m = ∅ ->
  allMetrics m = Some <$> systemMetrics m.
Proof.
  intros Hq Hc. unfold allMetrics, allMetrics_of, systemMetrics.
  rewrite Hq, Hc, !range_values_empty, !fmap_app. simpl.
  by rewrite !app_nil_r.
Qed.

(** [New] always returns, with empty registration maps and with exactly the
    descriptors of the system's own instruments recorded. *)
Lemma New_inv metricsConfig telemetryConfig next0 :
  ∃ m next,
    New metricsConfig telemetryConfig next0 = Returns (m, next)
    ∧ workflows m = ∅ ∧ customMetrics m = ∅ ∧ workqueueMetrics m = ∅
    ∧ metricNameHelps m = ∅
    ∧ ∀ D, is_Some (defaultMetricDescs m !! D)
           ↔ ∃ b, b ∈ systemMetrics m ∧ Desc_String b = D.
Proof.
  unfold New. cbn [newCounter newGauge newHistogram newInstrument].
  destruct (getWorkflowPhaseGauges (S next0)) as [phases n1].
  destruct (getErrorCounters (S n1)) as [errs n2].
  rewrite allMetrics_no_dynamic by reflexivity.
  rewrite recordDescs_Some.
  eexists _, _. split; [reflexivity|].
  repeat split; try reflexivity.
  - cbn [defaultMetricDescs set_defaultMetricDescs]. rewrite recorded_lookup.
    intros [H|H]; [|exact H]. cbn in H. rewrite lookup_empty in H. by destruct H.
  - intros H. cbn [defaultMetricDescs set_defaultMetricDescs].
    rewrite recorded_lookup. right. exact H.
Qed.

Lemma fresh_inv w :
  fresh w ->
  snapshots w = [] ∧ workflows (registry w) = ∅ ∧ customMetrics (registry w) = ∅
  ∧ workqueueMetrics (registry w) = ∅ ∧ metricNameHelps (registry w) = ∅
  ∧ ∀ D, is_Some (defaultMetricDescs (registry w) !! D)
         ↔ ∃ b, b ∈ systemMetrics (registry w) ∧ Desc_String b = D.
Proof.
  intros (mc & tc & next0 & m & next & HNew & ->).
  destruct (New_inv mc tc next0) as (m' & next' & HNew' & H).
  rewrite HNew in HNew'. injection HNew' as <- <-. simpl. tauto.
Qed.

(** ** What one call changes *)

Lemma type_assert_inv i x o : type_assert i x = Returns o -> x = Some o.
Proof.
  unfold type_assert. destruct x as [o'|]; [|discriminate].
  destruct (implements _ _); [|discriminate]. by intros [= ->].
Qed.

Lemma queueAccessor_inv q name next m g next' m' :
  queueAccessor q name next m = Returns (g, next', m') ->
  (workqueueMetrics m !! queueKey q name = Some g ∧ next' = next ∧ m' = m)
  ∨ (workqueueMetrics m !! queueKey q name = None
     ∧ g = queueInstrument q name next ∧ next' = S next
     ∧ m' = set_workqueueMetrics (<[queueKey q name := g]> (workqueueMetrics m)) m).
Proof.
  destruct q; simpl; unfold NewDepthMetric, NewAddsMetric, NewLatencyMetric;
    cbn [newCounter newGauge newHistogram newInstrument];
    match goal with
    | |- context [workqueueMetrics m !! ?k] =>
        destruct (workqueueMetrics m !! k) as [g0|] eqn:Hk
    end.
  all: match goal with
       | |- context [type_assert ?i ?x] => destruct (type_assert i x) as [o|] eqn:Ha
       end; [|discriminate..].
  all: intros [= <- <- <-]; apply type_assert_inv in Ha.
  all: first
    [ left; rewrite Hk in Ha; by injection Ha as ->
    | right; cbn [workqueueMetrics set_workqueueMetrics] in Ha;
      rewrite lookup_insert_eq in Ha; by injection Ha as <- ].
Qed.

(** Every returning call leaves the registry alone, or stores a
    registration, or removes an owner, or stores a new queue instrument. *)
Lemma step_registry w c w' :
  step w c w' ->
  (registry w' = registry w ∧ next_object w' = next_object w)
  ∨ (∃ key ownerKey i realtime now name help,
        c = CallUpsertCustomMetric key ownerKey (Some i) realtime now
        ∧ defaultMetricDescs (registry w) !! Desc_String i = None
        ∧ named i name help
        ∧ (metricNameHelps (registry w) !! name = None
           ∨ metricNameHelps (registry w) !! name = Some help)
        ∧ registry w' = stored key ownerKey i realtime now name help (registry w))
  ∨ (∃ key, c = CallStopRealtimeMetricsForKey key
        ∧ registry w' = StopRealtimeMetricsForKey key (registry w))
  ∨ (∃ q name, c = queueCall q name
        ∧ workqueueMetrics (registry w) !! queueKey q name = None
        ∧ next_object w' = S (next_object w)
        ∧ registry w' =
            set_workqueueMetrics
              (<[queueKey q name := queueInstrument q name (next_object w)]>
                 (workqueueMetrics (registry w))) (registry w)).
Proof.
  assert (Hq : ∀ q name w',
    provide (queueAccessor q) name w = Returns w' ->
    (registry w' = registry w ∧ next_object w' = next_object w)
    ∨ (workqueueMetrics (registry w) !! queueKey q name = None
       ∧ next_object w' = S (next_object w)
       ∧ registry w' =
           set_workqueueMetrics
             (<[queueKey q name := queueInstrument q name (next_object w)]>
                (workqueueMetrics (registry w))) (registry w))).
  { intros q name w1. unfold provide.
    destruct (queueAccessor q name _ _) as [[[g n'] m']|] eqn:Hacc; [|discriminate].
    intros [= <-]. simpl.
    apply queueAccessor_inv in Hacc as [(_ & -> & ->)|(Hnone & -> & -> & ->)]; auto. }
  intros [l Hl|c0 w0 Hc Hexec]; [left; done|].
  destruct c0 as [key ownerKey newMetric realtime now|key|key| |name|name|name];
    simpl in Hexec.
  - destruct (UpsertCustomMetric _ _ _ _ _ _) as [[[e|] m']|] eqn:Hup; [| |discriminate].
    + injection Hexec as <-. apply UpsertCustomMetric_error in Hup as ->. by left.
    + injection Hexec as <-.
      apply UpsertCustomMetric_ok in Hup as (i & name & help & -> & ? & ? & ? & ->).
      right. left. exists key, ownerKey, i, realtime, now, name, help. auto.
  - injection Hexec as <-. right. right. left. eauto.
  - injection Hexec as <-. by left.
  - done.
  - destruct (Hq depth name _ Hexec) as [?|?]; [by left|].
    right. right. right. exists depth, name. auto.
  - destruct (Hq adds name _ Hexec) as [?|?]; [by left|].
    right. right. right. exists adds, name. auto.
  - destruct (Hq latency name _ Hexec) as [?|?]; [by left|].
    right. right. right. exists latency, name. auto.
Qed.

(** ** What [StopRealtimeMetricsForKey] does *)

Lemma lookup_foldl_delete {V : Type} (ks : list string) (cm : gmap string V) (k : string) :
  foldl (fun cm k' => delete k' cm) cm ks !! k
  = if decide (k ∈ ks) then None else cm !! k.
Proof.
  revert cm. induction ks as [|k0 ks IH]; intros cm; simpl.
  - destruct (decide (k ∈ [])) as [Hin|_]; [by apply elem_of_nil in Hin|done].
  - rewrite IH.
    destruct (decide (k ∈ ks)) as [Hin|Hnin];
      destruct (decide (k ∈ k0 :: ks)) as [Hin'|Hnin']; try done.
    + destruct Hnin'. by right.
    + apply elem_of_cons in Hin' as [->|?]; [|done]. apply lookup_delete_eq.
    + apply lookup_delete_ne. intros ->. apply Hnin'. by left.
Qed.

Lemma Stop_workflows key m :
  workflows (StopRealtimeMetricsForKey key m) = delete key (workflows m).
Proof.
  unfold StopRealtimeMetricsForKey.
  destruct (workflows m !! key) eqn:Hk; [done|]. by rewrite delete_id.
Qed.

Lemma Stop_customMetrics_tracked key m k :
  tracked m key k -> customMetrics (StopRealtimeMetricsForKey key m) !! k = None.
Proof.
  intros (ks & Hk & Hin). unfold StopRealtimeMetricsForKey. rewrite Hk.
  cbn [customMetrics set_workflows set_customMetrics].
  rewrite lookup_foldl_delete. by rewrite decide_True.
Qed.

Lemma Stop_customMetrics_untracked key m k :
  ¬ tracked m key k ->
  customMetrics (StopRealtimeMetricsForKey key m) !! k = customMetrics m !! k.
Proof.
  intros Hntr. unfold StopRealtimeMetricsForKey.
  destruct (workflows m !! key) as [ks|] eqn:Hk; [|done].
  cbn [customMetrics set_workflows set_customMetrics].
  rewrite lookup_foldl_delete. rewrite decide_False; [done|].
  intros Hin. apply Hntr. exists ks. done.
Qed.

Lemma Stop_untracked key m :
  workflows m !! key = None -> StopRealtimeMetricsForKey key m = m.
Proof. unfold StopRealtimeMetricsForKey. by intros ->. Qed.

Lemma Stop_fixed key m :
  let m' := StopRealtimeMetricsForKey key m in
  builtinMetrics m' = builtinMetrics m ∧ workflowsByPhase m' = workflowsByPhase m
  ∧ errors m' = errors m ∧ defaultMetricDescs m' = defaultMetricDescs m
  ∧ metricNameHelps m' = metricNameHelps m ∧ workqueueMetrics m' = workqueueMetrics m.
Proof.
  unfold StopRealtimeMetricsForKey. by destruct (workflows m !! key).
Qed.

(** Removing an owner twice is removing it once. *)
Lemma Stop_idempotent key m :
  StopRealtimeMetricsForKey key (StopRealtimeMetricsForKey key m)
  = StopRealtimeMetricsForKey key m.
Proof.
  apply Stop_untracked. by rewrite Stop_workflows, lookup_delete_eq.
Qed.

(** ** The system's descriptors *)

Lemma step_system w c w' :
  step w c w' ->
  systemMetrics (registry w') = systemMetrics (registry w)
  ∧ defaultMetricDescs (registry w') = defaultMetricDescs (registry w).
Proof.
  intros Hstep. unfold systemMetrics.
  apply step_registry in Hstep
    as [[-> _]|[(key & o & i & rt & now & name & help & _ & _ & _ & _ & ->)
       |[(key & _ & ->)|(q & name & _ & _ & _ & ->)]]].
  - done.
  - destruct (stored_system key o i rt now name help (registry w)) as (-> & -> & -> & ->).
    done.
  - destruct (Stop_fixed key (registry w)) as (-> & -> & -> & -> & _). done.
  - done.
Qed.

Lemma steps_system w cs w' :
  steps w cs w' ->
  systemMetrics (registry w') = systemMetrics (registry w)
  ∧ defaultMetricDescs (registry w') = defaultMetricDescs (registry w).
Proof.
  induction 1 as [w|w c w1 cs w2 Hstep _ [IH1 IH2]]; [done|].
  apply step_system in Hstep as [H1 H2]. by rewrite IH1, IH2.
Qed.

(** In every world reached from [New], the descriptor of every instrument of
    the system is in [defaultMetricDescs]. *)
Lemma reachable_system_recorded w b :
  reachable w -> b ∈ systemMetrics (registry w) ->
  is_Some (defaultMetricDescs (registry w) !! Desc_String b).
Proof.
  intros (w0 & cs & Hfresh & Hsteps) Hb.
  apply steps_system in Hsteps as [Hsys Hdescs].
  apply fresh_inv in Hfresh as (_ & _ & _ & _ & _ & Hrec).
  rewrite Hdescs. apply Hrec. exists b. by rewrite <- Hsys.
Qed.

(** C1. In every registry reached from [New] by any calls, registering an
    instrument whose descriptor string equals that of an instrument of the
    system (one of the twelve fields, a per-phase gauge, a per-cause counter)
    returns the descriptor-collision error, and the registry after the call
    is the registry before it. *)
Theorem UpsertCustomMetric_builtin_collision w b i key ownerKey realtime now :
  reachable w ->
  b ∈ systemMetrics (registry w) ->
  Desc_String i = Desc_String b ->
  UpsertCustomMetric key ownerKey (Some i) realtime now (registry w)
  = Returns (Some (DescriptorCollision (Desc_String b)), registry w).
Proof.
  intros Hreach Hb Hdesc.
  rewrite <- Hdesc. apply UpsertCustomMetric_collision.
  rewrite Hdesc. by apply reachable_system_recorded.
Qed.

(** C2, as the code has it. In every registry where name N is registered
    with help H1, registering an instrument that is read as name N with help
    H2, H2 different from H1, and whose descriptor is not one the system
    recorded, returns the help-mismatch error, and the registry after the
    call is the registry before it: its custom-metric map, its owner index
    and its help registry are the same, so the first registration's entry is
    untouched. *)
Theorem UpsertCustomMetric_help_mismatch m i key ownerKey realtime now N H1 H2 :
  metricNameHelps m !! N = Some H1 ->
  named i N H2 ->
  H2 ≠ H1 ->
  defaultMetricDescs m !! Desc_String i = None ->
  UpsertCustomMetric key ownerKey (Some i) realtime now m
  = Returns (Some (HelpTextMismatch N H2 H1), m).
Proof.
  intros Hhelp Hnamed Hne Hdesc. by apply UpsertCustomMetric_mismatch.
Qed.

(** ** The owner index after a registration *)

Lemma occurrences_snoc k ks : occurrences k (ks ++ [k]) = S (occurrences k ks).
Proof.
  unfold occurrences. rewrite filter_app, length_app.
  rewrite filter_cons_True by done. simpl. lia.
Qed.

Lemma occurrences_zero k ks : occurrences k ks = 0 ↔ k ∉ ks.
Proof.
  unfold occurrences. induction ks as [|k0 ks IH]; simpl.
  - split; [intros _; apply not_elem_of_nil|done].
  - rewrite filter_cons. destruct (decide (k0 = k)) as [->|Hne]; simpl.
    + split; [done|]. intros Hnin. destruct Hnin. by left.
    + rewrite IH, not_elem_of_cons. split; [by intros ?|by intros [_ ?]].
Qed.

(** C5, as the code has it. After a successful realtime registration of key
    k for owner o, the owner's index list is its list before the call (empty
    when the owner had none) with k appended: k occurs in it once more than
    before, hence exactly once precisely when it did not occur before. *)
Theorem UpsertCustomMetric_appends_to_index m k o newMetric now m' :
  UpsertCustomMetric k o newMetric true now m = Returns (None, m') ->
  let before := default [] (workflows m !! o) in
  workflows m' !! o = Some (before ++ [k])
  ∧ occurrences k (before ++ [k]) = S (occurrences k before)
  ∧ (occurrences k (before ++ [k]) = 1 ↔ k ∉ before).
Proof.
  intros Hup before.
  apply UpsertCustomMetric_ok in Hup as (i & name & help & -> & _ & _ & _ & ->).
  rewrite stored_workflows, lookup_insert_eq, occurrences_snoc.
  repeat split; try done.
  - intros [= H0]. by apply occurrences_zero.
  - intros Hnin. f_equal. by apply occurrences_zero.
Qed.

(** ** Overwriting a key *)

Lemma filter_key_absent {V : Type} (l : list (string * V)) (k : string) :
  k ∉ l.*1 -> filter (fun kv => kv.1 = k) l = [].
Proof.
  induction l as [|[k0 v0] l IH]; [done|].
  rewrite fmap_cons, not_elem_of_cons. simpl. intros [Hne Hnin].
  rewrite filter_cons_False by (simpl; congruence). by apply IH.
Qed.

Lemma filter_key_unique {V : Type} (l : list (string * V)) (k : string) (v : V) :
  NoDup (l.*1) -> (k, v) ∈ l -> filter (fun kv => kv.1 = k) l = [(k, v)].
Proof.
  induction l as [|[k0 v0] l IH]; intros Hnodup Hin.
  - by apply elem_of_nil in Hin.
  - rewrite fmap_cons in Hnodup. apply NoDup_cons in Hnodup as [Hk0 Hnodup].
    simpl in Hk0. apply elem_of_cons in Hin as [Heq|Hin].
    + injection Heq as <- <-.
      rewrite filter_cons_True by done. by rewrite filter_key_absent.
    + assert (k0 ≠ k).
      { intros ->. apply Hk0. apply list_elem_of_fmap. by exists (k, v). }
      rewrite filter_cons_False by done. by apply IH.
Qed.

Lemma one_entry {V : Type} (m : gmap string V) (k : string) (v : V) :
  m !! k = Some v ->
  filter (fun kv => kv.1 = k) (map_to_list m) = [(k, v)].
Proof.
  intros Hk. apply filter_key_unique.
  - apply NoDup_fst_map_to_list.
  - by apply elem_of_map_to_list.
Qed.

(** C6. Two successful registrations under the same key and owner leave one
    entry under the key: it holds the second instrument, [GetCustomMetric]
    returns the second instrument, and the second call added no entry. *)
Theorem UpsertCustomMetric_overwrites m k o I1 I2 r t1 t2 m1 m2 :
  UpsertCustomMetric k o (Some I1) r t1 m = Returns (None, m1) ->
  UpsertCustomMetric k o (Some I2) r t2 m1 = Returns (None, m2) ->
  customMetrics m2 !! k = Some (mkMetric (Some I2) t2)
  ∧ filter (fun kv => kv.1 = k) (map_to_list (customMetrics m2))
    = [(k, mkMetric (Some I2) t2)]
  ∧ GetCustomMetric k m2 = Some I2
  ∧ size (customMetrics m2) = size (customMetrics m1).
Proof.
  intros Hup1 Hup2.
  apply UpsertCustomMetric_ok in Hup1 as (? & n1 & h1 & [= <-] & _ & _ & _ & ->).
  apply UpsertCustomMetric_ok in Hup2 as (? & n2 & h2 & [= <-] & _ & _ & _ & ->).
  assert (Hk : customMetrics (stored k o I2 r t2 n2 h2 (stored k o I1 r t1 n1 h1 m)) !! k
               = Some (mkMetric (Some I2) t2)).
  { by rewrite stored_customMetrics, lookup_insert_eq. }
  repeat split.
  - exact Hk.
  - by apply one_entry.
  - unfold GetCustomMetric. by rewrite Hk.
  - rewrite (stored_customMetrics k o I2). apply map_size_insert_Some.
    rewrite stored_customMetrics, lookup_insert_eq. eauto.
Qed.

(** ** Owners and their keys *)

Lemma stored_tracked_new key ownerKey i now name help m :
  tracked (stored key ownerKey i true now name help m) ownerKey key.
Proof.
  unfold tracked. rewrite stored_workflows, lookup_insert_eq.
  eexists. split; [done|]. apply elem_of_app. right. by left.
Qed.

Lemma stored_tracked_old key ownerKey i realtime now name help m o k :
  tracked m o k -> tracked (stored key ownerKey i realtime now name help m) o k.
Proof.
  intros (ks & Hks & Hin). unfold tracked. rewrite stored_workflows.
  destruct realtime; [|eauto].
  destruct (decide (ownerKey = o)) as [->|Hne].
  - rewrite lookup_insert_eq, Hks. eexists. split; [done|].
    apply elem_of_app. by left.
  - rewrite lookup_insert_ne by done. eauto.
Qed.

Lemma stored_tracked_inv key ownerKey i realtime now name help m o k :
  tracked (stored key ownerKey i realtime now name help m) o k ->
  tracked m o k ∨ (realtime = true ∧ o = ownerKey ∧ k = key).
Proof.
  unfold tracked. rewrite stored_workflows. intros (ks & Hks & Hin).
  destruct realtime; [|left; eauto].
  destruct (decide (ownerKey = o)) as [->|Hne].
  - rewrite lookup_insert_eq in Hks. injection Hks as <-.
    apply elem_of_app in Hin as [Hin|Hin%list_elem_of_singleton]; [|by right].
    left. destruct (workflows m !! o) as [ks|]; [eauto|].
    by apply elem_of_nil in Hin.
  - rewrite lookup_insert_ne in Hks by done. left. eauto.
Qed.

Lemma Stop_tracked_inv key m o k :
  tracked (StopRealtimeMetricsForKey key m) o k -> o ≠ key ∧ tracked m o k.
Proof.
  unfold tracked. rewrite Stop_workflows. intros (ks & Hks & Hin).
  apply lookup_delete_Some in Hks as [Hne Hks]. split; [done|eauto].
Qed.

(** A key stays in its owner's index until that owner is removed. *)
Lemma step_tracked w c w' o k :
  step w c w' -> c ≠ CallStopRealtimeMetricsForKey o ->
  tracked (registry w) o k -> tracked (registry w') o k.
Proof.
  intros Hstep Hc Htr.
  apply step_registry in Hstep
    as [[-> _]|[(key & o' & i & rt & now & name & help & _ & _ & _ & _ & ->)
       |[(key & -> & ->)|(q & name & _ & _ & _ & ->)]]].
  - done.
  - by apply stored_tracked_old.
  - destruct Htr as (ks & Hks & Hin). exists ks. split; [|done].
    rewrite Stop_workflows, lookup_delete_ne; [done|]. congruence.
  - done.
Qed.

Lemma steps_tracked w cs w' o k :
  steps w cs w' -> CallStopRealtimeMetricsForKey o ∉ cs ->
  tracked (registry w) o k -> tracked (registry w') o k.
Proof.
  induction 1 as [w|w c w1 cs w2 Hstep _ IH]; [done|].
  rewrite not_elem_of_cons. intros [Hc Hcs] Htr.
  apply IH; [done|]. eapply step_tracked; eauto.
Qed.

Lemma Get_after_Stop o k m :
  tracked m o k -> GetCustomMetric k (StopRealtimeMetricsForKey o m) = None.
Proof.
  intros Htr. unfold GetCustomMetric.
  by rewrite Stop_customMetrics_tracked.
Qed.

(** C3. After a successful realtime registration of m1 for owner run-A and
    a successful realtime registration of m2 for run-A, with any calls
    before, between and after them other than the removal of run-A, removing
    run-A makes [GetCustomMetric] return nil for m1 and for m2; removing
    run-A a second time returns and leaves the registry as it is. *)
Theorem owner_lifecycle w0 I1 t1 m1 cs1 w1 I2 t2 m2 cs2 w2 :
  UpsertCustomMetric "m1" "run-A" I1 true t1 (registry w0) = Returns (None, m1) ->
  steps (with_registry m1 w0) cs1 w1 ->
  UpsertCustomMetric "m2" "run-A" I2 true t2 (registry w1) = Returns (None, m2) ->
  steps (with_registry m2 w1) cs2 w2 ->
  CallStopRealtimeMetricsForKey "run-A" ∉ (cs1 ++ cs2) ->
  let m3 := StopRealtimeMetricsForKey "run-A" (registry w2) in
  GetCustomMetric "m1" m3 = None
  ∧ GetCustomMetric "m2" m3 = None
  ∧ StopRealtimeMetricsForKey "run-A" m3 = m3.
Proof.
  intros Hup1 Hcs1 Hup2 Hcs2 Hnostop m3.
  apply not_elem_of_app in Hnostop as [Hno1 Hno2].
  apply UpsertCustomMetric_ok in Hup1 as (i1 & n1 & h1 & -> & _ & _ & _ & ->).
  apply UpsertCustomMetric_ok in Hup2 as (i2 & n2 & h2 & -> & _ & _ & _ & ->).
  assert (Htr1 : tracked (registry w1) "run-A" "m1").
  { eapply steps_tracked; [exact Hcs1|exact Hno1|]. apply stored_tracked_new. }
  assert (Htr1' : tracked (registry w2) "run-A" "m1").
  { eapply steps_tracked; [exact Hcs2|exact Hno2|]. by apply stored_tracked_old. }
  assert (Htr2 : tracked (registry w2) "run-A" "m2").
  { eapply steps_tracked; [exact Hcs2|exact Hno2|]. apply stored_tracked_new. }
  subst m3. repeat split.
  - by apply Get_after_Stop.
  - by apply Get_after_Stop.
  - apply Stop_idempotent.
Qed.

(** ** Consistency of the owner index with the custom-metric map *)

Lemma step_index_justified seen w c w' :
  one_owner (seen ++ [c]) ->
  step w c w' ->
  index_justified seen (registry w) ->
  index_justified (seen ++ [c]) (registry w').
Proof.
  intros Hone Hstep Hinv.
  assert (Hmono : ∀ o k, tracked (registry w) o k ->
            is_Some (customMetrics (registry w) !! k)
            ∧ ∃ i t, CallUpsertCustomMetric k o i true t ∈ seen ++ [c]).
  { intros o k Htr. destruct (Hinv o k Htr) as [Hsome (i & t & Hin)].
    split; [done|]. exists i, t. apply elem_of_app. by left. }
  apply step_registry in Hstep
    as [[-> _]|[(key & o' & i & rt & now & name & help & -> & _ & _ & _ & ->)
       |[(key & -> & ->)|(q & name & _ & _ & _ & ->)]]].
  - exact Hmono.
  - intros o k Htr. rewrite stored_customMetrics.
    apply stored_tracked_inv in Htr as [Htr|(-> & -> & ->)].
    + destruct (Hmono o k Htr) as [Hsome Hin]. split; [|done].
      apply lookup_insert_is_Some'. by right.
    + split; [rewrite lookup_insert_eq; eauto|].
      exists (Some i), now. apply elem_of_app. right. by left.
  - intros o k Htr. apply Stop_tracked_inv in Htr as [Hne Htr].
    destruct (Hmono o k Htr) as [Hsome (i & t & Hin)].
    split; [|eauto]. rewrite Stop_customMetrics_untracked; [done|].
    intros Htr'. destruct (Hmono key k Htr') as [_ (i' & t' & Hin')].
    apply Hne. eapply Hone; eauto.
  - exact Hmono.
Qed.

Lemma one_owner_prefix cs1 cs2 : one_owner (cs1 ++ cs2) -> one_owner cs1.
Proof.
  intros Hone k o1 o2 i1 i2 t1 t2 H1 H2.
  eapply Hone; apply elem_of_app; left; eauto.
Qed.

Lemma steps_index_justified w cs w' :
  steps w cs w' -> ∀ seen,
  one_owner (seen ++ cs) ->
  index_justified seen (registry w) ->
  index_justified (seen ++ cs) (registry w').
Proof.
  induction 1 as [w|w c w1 cs w2 Hstep _ IH]; intros seen Hone Hinv.
  - by rewrite app_nil_r.
  - rewrite cons_middle, app_assoc in Hone |- *.
    apply IH; [done|].
    eapply step_index_justified; [|exact Hstep|exact Hinv].
    by apply one_owner_prefix in Hone.
Qed.

(** C4, as the code has it. In every registry reached from [New] by calls
    in which no key is registered as realtime under two different owners,
    every key of every owner's index has an entry in the custom-metric
    map. *)
Theorem index_consistent_one_owner w0 cs w :
  fresh w0 -> steps w0 cs w -> one_owner cs ->
  index_consistent (registry w).
Proof.
  intros Hfresh Hsteps Hone o k Htr.
  apply fresh_inv in Hfresh as (_ & Hwf & _).
  assert (Hinv : index_justified ([] ++ cs) (registry w)).
  { apply (steps_index_justified w0); [done..|].
    intros o' k' (ks & Hks & _). rewrite Hwf, lookup_empty in Hks. done. }
  by destruct (Hinv o k Htr).
Qed.

(** ** Snapshots *)

Lemma ranged_lookup {V : Type} (m : gmap string V) (vs : list V) (k : string) (v : V) :
  ranged m vs -> m !! k = Some v -> v ∈ vs.
Proof.
  unfold ranged, range_values. intros -> Hk.
  apply list_elem_of_fmap. exists (k, v). split; [done|].
  by apply elem_of_map_to_list.
Qed.

Lemma ranged_length {V : Type} (m : gmap string V) (vs : list V) :
  ranged m vs -> length vs = size m.
Proof.
  unfold ranged, range_values. intros ->.
  by rewrite length_fmap, length_map_to_list.
Qed.

Lemma ranged_range_values {V : Type} (m : gmap string V) : ranged m (range_values m).
Proof. unfold ranged. reflexivity. Qed.

(** The loops of [allMetrics] in the order of [range_values] are one of the
    orders it may take. *)
Lemma allMetrics_returns_allMetrics m : allMetrics_returns m (allMetrics m).
Proof.
  exists (range_values (workflowsByPhase m)), (range_values (errors m)),
    (range_values (workqueueMetrics m)), (range_values (customMetrics m)).
  repeat split; apply ranged_range_values.
Qed.

Lemma exec_step c w w' : exec c w = Returns w' -> step w c w'.
Proof.
  intros Hexec. destruct c; try (by apply step_exec).
  injection Hexec as <-. apply step_allMetrics, allMetrics_returns_allMetrics.
Qed.

Lemma run_steps cs w w' : run cs w = Returns w' -> steps w cs w'.
Proof.
  revert w. induction cs as [|c cs IH]; intros w; simpl.
  - intros [= <-]. constructor.
  - destruct (exec c w) as [w1|] eqn:Hexec; [|discriminate].
    intros Hrun. econstructor; [by apply exec_step|by apply IH].
Qed.

Lemma step_snapshots w c w' :
  step w c w' -> ∃ new, snapshots w' = snapshots w ++ new.
Proof.
  intros [l Hl|c0 w0 Hc Hexec].
  - by exists [l].
  - exists []. rewrite app_nil_r.
    destruct c0; simpl in Hexec; unfold provide in Hexec;
      repeat match type of Hexec with
             | context [match ?x with _ => _ end] => destruct x
             end; try discriminate; try done; by injection Hexec as <-.
Qed.

Lemma steps_snapshots w cs w' :
  steps w cs w' -> ∃ new, snapshots w' = snapshots w ++ new.
Proof.
  induction 1 as [w|w c w1 cs w2 Hstep _ [new2 IH]].
  - exists []. by rewrite app_nil_r.
  - apply step_snapshots in Hstep as [new1 Hstep].
    exists (new1 ++ new2). by rewrite IH, Hstep, app_assoc.
Qed.

(** C7. The slice [allMetrics] returns holds the instruments of the registry
    as it is at the call, one element per instrument. Whatever calls follow
    (registrations, removals, queue accessors, further snapshots), the slice
    keeps its length and its elements. *)
Theorem snapshot_stable w l cs w' :
  allMetrics_returns (registry w) l ->
  steps (store_snapshot l w) cs w' ->
  snapshots (store_snapshot l w) !! length (snapshots w) = Some l
  ∧ snapshots w' !! length (snapshots w) = Some l
  ∧ length l = 12 + size (workflowsByPhase (registry w)) + size (errors (registry w))
               + size (workqueueMetrics (registry w)) + size (customMetrics (registry w)).
Proof.
  intros Hl Hsteps.
  assert (Hat : snapshots (store_snapshot l w) !! length (snapshots w) = Some l).
  { simpl. by rewrite list_lookup_middle. }
  split; [done|]. split.
  - apply steps_snapshots in Hsteps as [new ->].
    by apply lookup_app_l_Some.
  - destruct Hl as (ps & es & qs & cs' & Hps & Hes & Hqs & Hcs & ->).
    unfold allMetrics_of. rewrite !length_app, !length_fmap. simpl.
    rewrite (ranged_length _ _ Hps), (ranged_length _ _ Hes),
      (ranged_length _ _ Hqs), (ranged_length _ _ Hcs). lia.
Qed.

(** ** What the enumeration contains *)

Lemma step_custom_kept w c w' key :
  step w c w' -> keeps key c ->
  customMetrics (registry w') !! key = customMetrics (registry w) !! key.
Proof.
  intros Hstep Hkeep.
  apply step_registry in Hstep
    as [[-> _]|[(k & o' & i & rt & now & name & help & -> & _ & _ & _ & ->)
       |[(k & -> & ->)|(q & name & _ & _ & _ & ->)]]]; try done.
  rewrite stored_customMetrics. by apply lookup_insert_ne.
Qed.

Lemma steps_custom_kept w cs w' key :
  steps w cs w' -> Forall (keeps key) cs ->
  customMetrics (registry w') !! key = customMetrics (registry w) !! key.
Proof.
  induction 1 as [w|w c w1 cs w2 Hstep _ IH]; [done|].
  intros [Hc Hcs]%Forall_cons. rewrite IH by done. by eapply step_custom_kept.
Qed.

(** A queue instrument, once stored, stays stored. *)
Lemma step_queue_kept w c w' key g :
  step w c w' ->
  workqueueMetrics (registry w) !! key = Some g ->
  workqueueMetrics (registry w') !! key = Some g.
Proof.
  intros Hstep Hg.
  apply step_registry in Hstep
    as [[-> _]|[(k & o' & i & rt & now & name & help & _ & _ & _ & _ & ->)
       |[(k & _ & ->)|(q & name & _ & Hnone & _ & ->)]]].
  - done.
  - by rewrite stored_workqueueMetrics.
  - by destruct (Stop_fixed k (registry w)) as (_ & _ & _ & _ & _ & ->).
  - cbn [workqueueMetrics set_workqueueMetrics]. rewrite lookup_insert_ne; [done|].
    intros <-. congruence.
Qed.

Lemma steps_queue_kept w cs w' key g :
  steps w cs w' ->
  workqueueMetrics (registry w) !! key = Some g ->
  workqueueMetrics (registry w') !! key = Some g.
Proof.
  induction 1 as [w|w c w1 cs w2 Hstep _ IH]; [done|].
  intros Hg. apply IH. by eapply step_queue_kept.
Qed.

Lemma allMetrics_returns_elem m l x :
  allMetrics_returns m l ->
  (∃ b, b ∈ builtinMetrics m ∧ x = Some b)
  ∨ (∃ k g, workflowsByPhase m !! k = Some g ∧ x = Some g)
  ∨ (∃ k c, errors m !! k = Some c ∧ x = Some c)
  ∨ (∃ k q, workqueueMetrics m !! k = Some q ∧ x = Some q)
  ∨ (∃ k e, customMetrics m !! k = Some e ∧ x = metric_metric e)
  -> x ∈ l.
Proof.
  intros (ps & es & qs & cs & Hps & Hes & Hqs & Hcs & ->). unfold allMetrics_of.
  rewrite !elem_of_app.
  intros [(b & Hb & ->)|[(k & g & Hg & ->)|[(k & c & Hc & ->)|[(k & q & Hq & ->)
         |(k & e & He & ->)]]]].
  - left. by apply list_elem_of_fmap_2.
  - right. left. apply list_elem_of_fmap_2. by eapply ranged_lookup.
  - right. right. left. apply list_elem_of_fmap_2. by eapply ranged_lookup.
  - right. right. right. left. apply list_elem_of_fmap_2. by eapply ranged_lookup.
  - right. right. right. right. apply list_elem_of_fmap_2. by eapply ranged_lookup.
Qed.

(** C9. Whatever the registry, the slice [allMetrics] returns contains each
    of the twelve instrument fields, every per-phase gauge, every per-cause
    counter, every stored queue instrument and the instrument of every entry
    of the custom-metric map. In particular an instrument a successful
    [UpsertCustomMetric] has just stored, and the instrument a queue accessor
    has just returned, are in it; the queue instrument is in every later
    snapshot, and the custom instrument is in every later snapshot taken
    before an owner is removed or its key is registered again. *)
Theorem allMetrics_complete w l :
  allMetrics_returns (registry w) l ->
  let m := registry w in
  (∀ b, b ∈ builtinMetrics m -> Some b ∈ l)
  ∧ (∀ phase g, workflowsByPhase m !! phase = Some g -> Some g ∈ l)
  ∧ (∀ cause c, errors m !! cause = Some c -> Some c ∈ l)
  ∧ (∀ key q, workqueueMetrics m !! key = Some q -> Some q ∈ l)
  ∧ (∀ key e, customMetrics m !! key = Some e -> metric_metric e ∈ l)
  ∧ (∀ key ownerKey i realtime now m0,
       UpsertCustomMetric key ownerKey (Some i) realtime now m0 = Returns (None, m) ->
       Some i ∈ l
       ∧ ∀ cs w' l', steps w cs w' -> Forall (keeps key) cs ->
           allMetrics_returns (registry w') l' -> Some i ∈ l')
  ∧ (∀ q name next0 m0 g,
       queueAccessor q name next0 m0 = Returns (g, next_object w, m) ->
       Some g ∈ l
       ∧ ∀ cs w' l', steps w cs w' ->
           allMetrics_returns (registry w') l' -> Some g ∈ l').
Proof.
  intros Hl m. subst m.
  split; [|split; [|split; [|split; [|split; [|split]]]]].
  - intros b Hb. eapply allMetrics_returns_elem; [done|]. left. eauto.
  - intros k g Hg. eapply allMetrics_returns_elem; [done|]. right. left. eauto.
  - intros k c Hc. eapply allMetrics_returns_elem; [done|]. do 2 right. left. eauto.
  - intros k q Hq. eapply allMetrics_returns_elem; [done|]. do 3 right. left. eauto.
  - intros k e He. eapply allMetrics_returns_elem; [done|]. do 4 right. eauto.
  - intros key ownerKey i realtime now m0 Hup.
    apply UpsertCustomMetric_ok in Hup as (? & name & help & [= <-] & _ & _ & _ & Hm).
    assert (Hentry : customMetrics (registry w) !! key = Some (mkMetric (Some i) now)).
    { by rewrite Hm, stored_customMetrics, lookup_insert_eq. }
    split.
    + eapply allMetrics_returns_elem; [done|]. do 4 right.
      exists key, (mkMetric (Some i) now). done.
    + intros cs w' l' Hsteps Hkeep Hl'.
      eapply allMetrics_returns_elem; [done|]. do 4 right.
      exists key, (mkMetric (Some i) now). split; [|done].
      by rewrite (steps_custom_kept _ _ _ _ Hsteps Hkeep).
  - intros q name next0 m0 g Hacc.
    assert (Hentry : workqueueMetrics (registry w) !! queueKey q name = Some g).
    { apply queueAccessor_inv in Hacc as [(Hg & _ & <-)|(_ & _ & _ & ->)]; [done|].
      cbn [workqueueMetrics set_workqueueMetrics]. by rewrite lookup_insert_eq. }
    split.
    + eapply allMetrics_returns_elem; [done|]. do 3 right. left. eauto.
    + intros cs w' l' Hsteps Hl'.
      eapply allMetrics_returns_elem; [done|]. do 3 right. left.
      exists (queueKey q name), g. split; [|done].
      by eapply steps_queue_kept.
Qed.

(** ** The help registry *)

Lemma step_help_kept w c w' N H :
  step w c w' ->
  metricNameHelps (registry w) !! N = Some H ->
  metricNameHelps (registry w') !! N = Some H.
Proof.
  intros Hstep HN.
  apply step_registry in Hstep
    as [[-> _]|[(k & o' & i & rt & now & name & help & _ & _ & _ & Hold & ->)
       |[(k & _ & ->)|(q & name & _ & _ & _ & ->)]]].
  - done.
  - rewrite stored_metricNameHelps. destruct (decide (name = N)) as [->|Hne].
    + rewrite lookup_insert_eq. destruct Hold; congruence.
    + by rewrite lookup_insert_ne.
  - by destruct (Stop_fixed k (registry w)) as (_ & _ & _ & _ & -> & _).
  - done.
Qed.

Lemma steps_help_kept w cs w' N H :
  steps w cs w' ->
  metricNameHelps (registry w) !! N = Some H ->
  metricNameHelps (registry w') !! N = Some H.
Proof.
  induction 1 as [w|w c w1 cs w2 Hstep _ IH]; [done|].
  intros HN. apply IH. by eapply step_help_kept.
Qed.

(** C10, as the code has it. Once name N is registered with help H1, it
    stays registered with H1 through any calls, removals of owners included,
    whether or not an entry with that name is left in the custom-metric map:
    a later registration of an instrument read as name N with help H2, H2
    different from H1, and whose descriptor is not one the system recorded,
    returns the help-mismatch error and changes nothing. *)
Theorem help_binding_permanent w cs w' N H1 i key ownerKey realtime now H2 :
  metricNameHelps (registry w) !! N = Some H1 ->
  steps w cs w' ->
  named i N H2 ->
  H2 ≠ H1 ->
  defaultMetricDescs (registry w') !! Desc_String i = None ->
  metricNameHelps (registry w') !! N = Some H1
  ∧ UpsertCustomMetric key ownerKey (Some i) realtime now (registry w')
    = Returns (Some (HelpTextMismatch N H2 H1), registry w').
Proof.
  intros HN Hsteps Hnamed Hne Hdesc.
  assert (HN' : metricNameHelps (registry w') !! N = Some H1)
    by by eapply steps_help_kept.
  split; [done|]. by apply UpsertCustomMetric_mismatch.
Qed.

(** ** Keys of the queue instruments *)

Lemma list_ascii_of_string_app (s t : string) :
  String.list_ascii_of_string (s +:+ t)
  = String.list_ascii_of_string s ++ String.list_ascii_of_string t.
Proof. induction s as [|a s IH]; simpl; [done|]. by rewrite IH. Qed.

Lemma list_ascii_of_string_inj (s t : string) :
  String.list_ascii_of_string s = String.list_ascii_of_string t -> s = t.
Proof.
  intros H. rewrite <- (String.string_of_list_ascii_of_string s),
    <- (String.string_of_list_ascii_of_string t). by rewrite H.
Qed.

Lemma append_inj_l (s1 s2 t : string) : s1 +:+ t = s2 +:+ t -> s1 = s2.
Proof.
  intros H. apply list_ascii_of_string_inj.
  apply (f_equal String.list_ascii_of_string) in H.
  rewrite !list_ascii_of_string_app in H. by apply app_inv_tail in H.
Qed.

Lemma last_ascii_app (d a : Ascii.ascii) (s t : string) :
  last_ascii d (s +:+ String a t) = last_ascii a t.
Proof. revert d. induction s as [|b s IH]; intros d; simpl; [done|]. apply IH. Qed.

(** The key tells the queue's name and the kind of instrument. *)
Lemma queueKey_inj q1 name1 q2 name2 :
  queueKey q1 name1 = queueKey q2 name2 -> q1 = q2 ∧ name1 = name2.
Proof.
  intros H.
  assert (Hlast : last_ascii Ascii.zero (queueKey q1 name1) = last_ascii Ascii.zero (queueKey q2 name2))
    by by rewrite H.
  destruct q1, q2; simpl in H, Hlast; rewrite !last_ascii_app in Hlast;
    try discriminate Hlast; split; try done; by apply append_inj_l in H.
Qed.

Lemma queueCall_inj q1 name1 q2 name2 :
  queueCall q1 name1 = queueCall q2 name2 -> q1 = q2 ∧ name1 = name2.
Proof. destruct q1, q2; simpl; intros [=]; by subst. Qed.

(** ** The queue accessors *)

Lemma queueAccessor_create q name next m :
  workqueueMetrics m !! queueKey q name = None ->
  queueAccessor q name next m
  = Returns (queueInstrument q name next, S next,
             set_workqueueMetrics
               (<[queueKey q name := queueInstrument q name next]> (workqueueMetrics m)) m).
Proof.
  destruct q; simpl; intros Hnone;
    unfold NewDepthMetric, NewAddsMetric, NewLatencyMetric;
    cbn [newCounter newGauge newHistogram newInstrument];
    rewrite Hnone; cbn [workqueueMetrics set_workqueueMetrics];
    by rewrite lookup_insert_eq.
Qed.

Lemma queueAccessor_stored q name id next m :
  workqueueMetrics m !! queueKey q name = Some (queueInstrument q name id) ->
  queueAccessor q name next m = Returns (queueInstrument q name id, next, m).
Proof.
  destruct q; simpl; intros Hsome;
    unfold NewDepthMetric, NewAddsMetric, NewLatencyMetric; by rewrite !Hsome.
Qed.

Lemma step_queue_justified seen w c w' :
  step w c w' ->
  queue_justified seen (registry w) ->
  queue_justified (seen ++ [c]) (registry w').
Proof.
  intros Hstep Hinv.
  assert (Hmono : ∀ key, is_Some (workqueueMetrics (registry w) !! key) ->
            ∃ q name, key = queueKey q name ∧ queueCall q name ∈ seen ++ [c]).
  { intros key Hkey. destruct (Hinv key Hkey) as (q & name & -> & Hin).
    exists q, name. split; [done|]. apply elem_of_app. by left. }
  apply step_registry in Hstep
    as [[-> _]|[(k & o' & i & rt & now & name & help & _ & _ & _ & _ & ->)
       |[(k & _ & ->)|(q & name & -> & _ & _ & ->)]]].
  - exact Hmono.
  - intros key. rewrite stored_workqueueMetrics. apply Hmono.
  - intros key. destruct (Stop_fixed k (registry w)) as (_ & _ & _ & _ & _ & ->).
    apply Hmono.
  - intros key. cbn [workqueueMetrics set_workqueueMetrics].
    destruct (decide (queueKey q name = key)) as [<-|Hne].
    + intros _. exists q, name. split; [done|]. apply elem_of_app. right. by left.
    + rewrite lookup_insert_ne by done. apply Hmono.
Qed.

Lemma steps_queue_justified w cs w' :
  steps w cs w' -> ∀ seen,
  queue_justified seen (registry w) ->
  queue_justified (seen ++ cs) (registry w').
Proof.
  induction 1 as [w|w c w1 cs w2 Hstep _ IH]; intros seen Hinv.
  - by rewrite app_nil_r.
  - rewrite cons_middle, app_assoc. apply IH.
    eapply step_queue_justified; [exact Hstep|exact Hinv].
Qed.

(** Before the first call of an accessor for a name, nothing is stored under
    its key. *)
Lemma first_call_no_entry w0 cs w q name :
  fresh w0 -> steps w0 cs w -> queueCall q name ∉ cs ->
  workqueueMetrics (registry w) !! queueKey q name = None.
Proof.
  intros Hfresh Hsteps Hfirst.
  apply fresh_inv in Hfresh as (_ & _ & _ & Hq & _).
  assert (Hinv : queue_justified ([] ++ cs) (registry w)).
  { apply (steps_queue_justified w0); [done|].
    intros key. rewrite Hq, lookup_empty. by intros [? ?]. }
  apply eq_None_not_Some. intros Hsome.
  destruct (Hinv _ Hsome) as (q' & name' & Hkey & Hin).
  apply queueKey_inj in Hkey as [<- <-]. done.
Qed.

(** C8. For a queue name and a kind (depth, adds, latency): the first call
    of the accessor on a registry made by [New] creates a new object of the
    kind's type (a gauge, a counter, a histogram with buckets 1, 5, 20, 60,
    180), labelled with the queue's name, and stores it under the key of the
    name and kind; after any further calls, the accessor returns that same
    object, creates nothing and leaves the registry as it is. *)
Theorem queue_instrument_memoized q name w0 cs w :
  fresh w0 -> steps w0 cs w -> queueCall q name ∉ cs ->
  let g := queueInstrument q name (next_object w) in
  ∃ m1,
    queueAccessor q name (next_object w) (registry w) = Returns (g, S (next_object w), m1)
    ∧ workqueueMetrics m1 !! queueKey q name = Some g
    ∧ ∀ cs' w', steps (mkWorld (S (next_object w)) (snapshots w) m1) cs' w' ->
        queueAccessor q name (next_object w') (registry w')
        = Returns (g, next_object w', registry w').
Proof.
  intros Hfresh Hsteps Hfirst g.
  pose proof (first_call_no_entry _ _ _ _ _ Hfresh Hsteps Hfirst) as Hnone.
  eexists. split; [by apply queueAccessor_create|].
  cbn [workqueueMetrics set_workqueueMetrics]. split; [by rewrite lookup_insert_eq|].
  intros cs' w' Hsteps'. apply queueAccessor_stored.
  eapply steps_queue_kept; [exact Hsteps'|]. simpl. by rewrite lookup_insert_eq.
Qed.

(** ** Running calls *)

Lemma all_return_run cs w :
  all_return cs w = true -> run cs w = Returns (after_all cs w).
Proof.
  revert w. induction cs as [|c cs IH]; intros w; simpl; [done|].
  unfold after. destruct (exec c w) as [w1|]; simpl; [|done]. apply IH.
Qed.

Lemma all_return_steps cs w :
  all_return cs w = true -> steps w cs (after_all cs w).
Proof. intros Hret. by apply run_steps, all_return_run. Qed.

Lemma returns_step c w : returns (exec c w) = true -> step w c (after c w).
Proof.
  unfold after. destruct (exec c w) as [w'|] eqn:Hexec; [|done].
  intros _. by apply exec_step.
Qed.

Lemma registers_after key ownerKey newMetric realtime now w :
  registers key ownerKey newMetric realtime now (registry w) = true ->
  UpsertCustomMetric key ownerKey newMetric realtime now (registry w)
  = Returns (None,
      registry (after (CallUpsertCustomMetric key ownerKey newMetric realtime now) w)).
Proof.
  unfold registers, after. simpl.
  destruct (UpsertCustomMetric _ _ _ _ _ _) as [[[e|] m']|]; done.
Qed.

(** ** Further properties *)

(** X1. [New] never panics, and the registry it returns has an empty owner
    index, no custom metric, no queue instrument and no registered help. *)
Theorem New_registry_empty metricsConfig telemetryConfig next0 :
  ∃ m next,
    New metricsConfig telemetryConfig next0 = Returns (m, next)
    ∧ workflows m = ∅ ∧ customMetrics m = ∅ ∧ workqueueMetrics m = ∅
    ∧ metricNameHelps m = ∅.
Proof.
  destruct (New_inv metricsConfig telemetryConfig next0)
    as (m & next & HNew & Hwf & Hcm & Hq & Hh & _).
  exists m, next. auto.
Qed.





(** ** Registration, lookup and removal together *)

(** X4. A registration that returns an error has changed nothing, and the
    error says why: the descriptor is one the system recorded, or the name
    is registered with another help text. *)
Theorem rejected_registration_changes_nothing key ownerKey newMetric realtime now m e m' :
  UpsertCustomMetric key ownerKey newMetric realtime now m = Returns (Some e, m') ->
  m' = m
  ∧ ∃ i, newMetric = Some i
    ∧ ((e = DescriptorCollision (Desc_String i)
        ∧ is_Some (defaultMetricDescs m !! Desc_String i))
       ∨ ∃ name help existingHelp,
           e = HelpTextMismatch name help existingHelp
           ∧ named i name help
           ∧ metricNameHelps m !! name = Some existingHelp
           ∧ help ≠ existingHelp).
Proof.
  intros Hup. apply UpsertCustomMetric_inv in Hup as (i & -> & [Hc|[Hh|Hs]]).
  - destruct Hc as (Hsome & [= ->] & ->). split; [done|]. exists i. auto.
  - destruct Hh as (name & help & existingHelp & _ & Hnamed & Hhelp & Hne & [= ->] & ->).
    split; [done|]. exists i. split; [done|]. right. eauto 10.
  - destruct Hs as (? & ? & _ & _ & _ & [=] & _).
Qed.

(** X5. After a successful registration under a key, [GetCustomMetric] of
    the key returns the registered instrument, which is not nil, and
    [GetCustomMetric] of any other key returns what it returned before. *)
Theorem registered_metric_is_found key ownerKey newMetric realtime now m m' :
  UpsertCustomMetric key ownerKey newMetric realtime now m = Returns (None, m') ->
  GetCustomMetric key m' = newMetric
  ∧ newMetric ≠ None
  ∧ ∀ key', key' ≠ key -> GetCustomMetric key' m' = GetCustomMetric key' m.
Proof.
  intros Hup.
  apply UpsertCustomMetric_ok in Hup as (i & name & help & -> & _ & _ & _ & ->).
  unfold GetCustomMetric. rewrite stored_customMetrics. repeat split.
  - by rewrite lookup_insert_eq.
  - done.
  - intros key' Hne. by rewrite lookup_insert_ne.
Qed.

Lemma Stop_customMetrics_Some key m k e :
  customMetrics (StopRealtimeMetricsForKey key m) !! k = Some e ->
  customMetrics m !! k = Some e ∧ ¬ tracked m key k.
Proof.
  unfold StopRealtimeMetricsForKey, tracked.
  destruct (workflows m !! key) as [ks|] eqn:Hk.
  - cbn [customMetrics set_workflows set_customMetrics].
    rewrite lookup_foldl_delete. destruct (decide (k ∈ ks)) as [Hin|Hnin]; [done|].
    intros He. split; [done|]. intros (ks' & [= <-] & ?). done.
  - intros He. split; [done|]. intros (ks' & [=] & _).
Qed.

(** X6. Removing an owner deletes exactly the entries whose keys are in the
    owner's index: those keys are then not found, every other entry is as it
    was, the owner's index is gone, every other owner's index is as it was,
    and the help registry and the queue instruments are as they were. *)
Theorem owner_removal_exact o m :
  let m' := StopRealtimeMetricsForKey o m in
  (∀ k, tracked m o k -> GetCustomMetric k m' = None)
  ∧ (∀ k, ¬ tracked m o k -> customMetrics m' !! k = customMetrics m !! k)
  ∧ workflows m' !! o = None
  ∧ (∀ o', o' ≠ o -> workflows m' !! o' = workflows m !! o')
  ∧ metricNameHelps m' = metricNameHelps m
  ∧ workqueueMetrics m' = workqueueMetrics m.
Proof.
  intros m'. subst m'.
  destruct (Stop_fixed o m) as (_ & _ & _ & _ & Hh & Hq).
  split; [intros k; apply Get_after_Stop|].
  split; [intros k; apply Stop_customMetrics_untracked|].
  rewrite Stop_workflows. split; [apply lookup_delete_eq|].
  split; [|done]. intros o' Hne. by apply lookup_delete_ne.
Qed.

Lemma Stop_unfold o m :
  StopRealtimeMetricsForKey o m
  = set_workflows (delete o (workflows m))
      (set_customMetrics
         (foldl (fun cm k => delete k cm) (customMetrics m)
            (default [] (workflows m !! o))) m).
Proof.
  unfold StopRealtimeMetricsForKey.
  destruct (workflows m !! o) as [ks|] eqn:Hk; [done|].
  destruct m. simpl in *. by rewrite delete_id.
Qed.

Lemma foldl_delete_commute {V : Type} (l1 l2 : list string) (cm : gmap string V) :
  foldl (fun cm k => delete k cm) (foldl (fun cm k => delete k cm) cm l1) l2
  = foldl (fun cm k => delete k cm) (foldl (fun cm k => delete k cm) cm l2) l1.
Proof.
  apply map_eq. intros k. rewrite !lookup_foldl_delete.
  by destruct (decide (k ∈ l1)), (decide (k ∈ l2)).
Qed.

(** X7. Owners can be removed in any order: removing a then b leaves the
    registry that removing b then a leaves. *)
Theorem owner_removal_commutes a b m :
  StopRealtimeMetricsForKey a (StopRealtimeMetricsForKey b m)
  = StopRealtimeMetricsForKey b (StopRealtimeMetricsForKey a m).
Proof.
  destruct (decide (a = b)) as [->|Hne]; [done|].
  rewrite (Stop_unfold a (StopRealtimeMetricsForKey b m)),
    (Stop_unfold b (StopRealtimeMetricsForKey a m)).
  rewrite !Stop_workflows.
  rewrite (lookup_delete_ne (workflows m) b a) by done.
  rewrite (lookup_delete_ne (workflows m) a b) by done.
  rewrite (Stop_unfold a m), (Stop_unfold b m).
  destruct m. cbn.
  by rewrite delete_delete, foldl_delete_commute.
Qed.

(** X8. A metric registered with realtime false is not added to any owner's
    index: removing an owner whose index did not already hold its key leaves
    it in place. *)
Theorem unowned_metric_survives_removal key ownerKey i now m m' o :
  UpsertCustomMetric key ownerKey (Some i) false now m = Returns (None, m') ->
  ¬ tracked m o key ->
  workflows m' = workflows m
  ∧ GetCustomMetric key (StopRealtimeMetricsForKey o m') = Some i.
Proof.
  intros Hup Hntr.
  apply UpsertCustomMetric_ok in Hup as (? & name & help & [= <-] & _ & _ & _ & ->).
  assert (Hwf : workflows (stored key ownerKey i false now name help m) = workflows m)
    by by rewrite stored_workflows.
  split; [done|]. unfold GetCustomMetric.
  rewrite Stop_customMetrics_untracked.
  - by rewrite stored_customMetrics, lookup_insert_eq.
  - unfold tracked. by rewrite Hwf.
Qed.


(** ** Invariants of the registry *)

Lemma steps_invariant (P : World -> Prop) :
  (∀ w c w', step w c w' -> P w -> P w') ->
  ∀ w cs w', steps w cs w' -> P w -> P w'.
Proof.
  intros Hstep w cs w' Hsteps. induction Hsteps as [w|w c w1 cs w2 H1 _ IH]; [done|].
  intros HP. apply IH. by eapply Hstep.
Qed.

Lemma reachable_invariant (P : World -> Prop) :
  (∀ w, fresh w -> P w) ->
  (∀ w c w', step w c w' -> P w -> P w') ->
  ∀ w, reachable w -> P w.
Proof.
  intros Hfresh Hstep w (w0 & cs & Hw0 & Hsteps).
  eapply steps_invariant; [exact Hstep|exact Hsteps|by apply Hfresh].
Qed.

(** Every entry holds an instrument whose descriptor the system did not
    record. *)
Lemma reachable_entries_admitted w key e :
  reachable w -> customMetrics (registry w) !! key = Some e ->
  ∃ i, metric_metric e = Some i
       ∧ defaultMetricDescs (registry w) !! Desc_String i = None.
Proof.
  intros Hreach. revert key e.
  apply (reachable_invariant (fun w => ∀ key e,
    customMetrics (registry w) !! key = Some e ->
    ∃ i, metric_metric e = Some i
         ∧ defaultMetricDescs (registry w) !! Desc_String i = None));
    [| |exact Hreach]; clear w Hreach.
  - intros w Hfresh key e. apply fresh_inv in Hfresh as (_ & _ & -> & _).
    by rewrite lookup_empty.
  - intros w c w' Hstep IH key e.
    destruct (step_system _ _ _ Hstep) as [_ ->].
    apply step_registry in Hstep
      as [[-> _]|[(k & o & i & rt & now & name & help & _ & Hdesc & _ & _ & ->)
         |[(k & _ & ->)|(q & name & _ & _ & _ & ->)]]].
    + apply IH.
    + rewrite stored_customMetrics. destruct (decide (k = key)) as [->|Hne].
      * rewrite lookup_insert_eq. intros [= <-]. eauto.
      * rewrite lookup_insert_ne by done. apply IH.
    + intros He. apply Stop_customMetrics_Some in He as [He _]. by apply (IH key e).
    + apply IH.
Qed.

(** X9. In every registry reached from [New], no custom metric shadows an
    instrument of the system: every entry of the custom-metric map holds a
    non-nil instrument whose descriptor differs from the descriptor of each
    of the twelve fields, per-phase gauges and per-cause counters. *)
Theorem custom_metrics_never_shadow w key e :
  reachable w -> customMetrics (registry w) !! key = Some e ->
  ∃ i, metric_metric e = Some i
       ∧ ∀ b, b ∈ systemMetrics (registry w) -> Desc_String i ≠ Desc_String b.
Proof.
  intros Hreach He.
  destruct (reachable_entries_admitted w key e Hreach He) as (i & Hi & Hdesc).
  exists i. split; [done|]. intros b Hb Heq.
  destruct (reachable_system_recorded w b Hreach Hb) as [x Hx].
  rewrite <- Heq, Hdesc in Hx. done.
Qed.

(** X10. In every registry reached from [New], [GetCustomMetric] returns nil
    exactly for the keys that have no entry. *)
Theorem GetCustomMetric_nil_iff_absent w key :
  reachable w ->
  GetCustomMetric key (registry w) = None ↔ customMetrics (registry w) !! key = None.
Proof.
  intros Hreach. unfold GetCustomMetric. split.
  - destruct (customMetrics (registry w) !! key) as [e|] eqn:He; [|done].
    destruct (reachable_entries_admitted w key e Hreach He) as (i & Hi & _).
    simpl. by rewrite Hi.
  - by intros ->.
Qed.

(** The help registry binds the name of every stored instrument to its
    help. *)
Lemma reachable_help_bound w key e i name help :
  reachable w -> customMetrics (registry w) !! key = Some e ->
  metric_metric e = Some i -> named i name help ->
  metricNameHelps (registry w) !! name = Some help.
Proof.
  intros Hreach. revert key e i name help.
  apply (reachable_invariant (fun w => ∀ key e i name help,
    customMetrics (registry w) !! key = Some e ->
    metric_metric e = Some i -> named i name help ->
    metricNameHelps (registry w) !! name = Some help));
    [| |exact Hreach]; clear w Hreach.
  - intros w Hfresh key e i name help. apply fresh_inv in Hfresh as (_ & _ & -> & _).
    by rewrite lookup_empty.
  - intros w c w' Hstep IH key e i name help.
    apply step_registry in Hstep
      as [[-> _]|[(k & o & i0 & rt & now & name0 & help0 & _ & _ & Hnamed0 & Hold & ->)
         |[(k & _ & ->)|(q & name0 & _ & _ & _ & ->)]]].
    + apply IH.
    + rewrite stored_customMetrics, stored_metricNameHelps.
      destruct (decide (k = key)) as [->|Hne].
      * rewrite lookup_insert_eq. intros [= <-] [= <-] Hnamed.
        unfold named in *. rewrite Hnamed0 in Hnamed. injection Hnamed as <- <-.
        by rewrite lookup_insert_eq.
      * rewrite lookup_insert_ne by done. intros He Hi Hnamed.
        pose proof (IH _ _ _ _ _ He Hi Hnamed) as Hbound.
        destruct (decide (name0 = name)) as [->|Hne'].
        -- rewrite lookup_insert_eq. destruct Hold; congruence.
        -- by rewrite lookup_insert_ne.
    + intros He Hi Hnamed.
      destruct (Stop_fixed k (registry w)) as (_ & _ & _ & _ & -> & _).
      apply Stop_customMetrics_Some in He as [He _]. by eapply IH.
    + apply IH.
Qed.

(** X11. In every registry reached from [New], two stored instruments that
    are read as having the same name are read as having the same help text,
    the one the help registry holds for the name. *)
Theorem same_name_same_help w key1 e1 i1 key2 e2 i2 name help1 help2 :
  reachable w ->
  customMetrics (registry w) !! key1 = Some e1 -> metric_metric e1 = Some i1 ->
  customMetrics (registry w) !! key2 = Some e2 -> metric_metric e2 = Some i2 ->
  named i1 name help1 -> named i2 name help2 ->
  help1 = help2 ∧ metricNameHelps (registry w) !! name = Some help1.
Proof.
  intros Hreach He1 Hi1 He2 Hi2 Hn1 Hn2.
  pose proof (reachable_help_bound w _ _ _ _ _ Hreach He1 Hi1 Hn1) as H1.
  pose proof (reachable_help_bound w _ _ _ _ _ Hreach He2 Hi2 Hn2) as H2.
  split; [congruence|done].
Qed.

(** X12. In every registry reached from [New], the slice [allMetrics]
    returns holds no nil, and each element is one of the twelve fields, a
    per-phase gauge, a per-cause counter, a stored queue instrument or the
    instrument of an entry of the custom-metric map. *)
Theorem allMetrics_exact w l x :
  reachable w -> allMetrics_returns (registry w) l -> x ∈ l ->
  ∃ i, x = Some i
    ∧ (i ∈ builtinMetrics (registry w)
       ∨ (∃ phase, workflowsByPhase (registry w) !! phase = Some i)
       ∨ (∃ cause, errors (registry w) !! cause = Some i)
       ∨ (∃ key, workqueueMetrics (registry w) !! key = Some i)
       ∨ (∃ key e, customMetrics (registry w) !! key = Some e
                   ∧ metric_metric e = Some i)).
Proof.
  intros Hreach (ps & es & qs & cs & Hps & Hes & Hqs & Hcs & ->).
  assert (Hranged : ∀ (V : Type) (m : gmap string V) vs v,
            ranged m vs -> v ∈ vs -> ∃ k, m !! k = Some v).
  { intros V m vs v Hr Hv. unfold ranged, range_values in Hr. rewrite Hr in Hv.
    apply list_elem_of_fmap in Hv as ([k v'] & -> & Hkv).
    exists k. by apply elem_of_map_to_list. }
  unfold allMetrics_of. rewrite !elem_of_app.
  intros [Hx|[Hx|[Hx|[Hx|Hx]]]]; apply list_elem_of_fmap in Hx as (y & -> & Hy).
  - exists y. auto.
  - exists y. split; [done|]. right. left. by eapply Hranged.
  - exists y. split; [done|]. do 2 right. left. by eapply Hranged.
  - exists y. split; [done|]. do 3 right. left. by eapply Hranged.
  - destruct (Hranged _ _ _ _ Hcs Hy) as [key He].
    destruct (reachable_entries_admitted w key y Hreach He) as (i & Hi & _).
    exists i. split; [done|]. do 4 right. eauto.
Qed.


(** Every stored queue instrument is what the accessor of its key creates. *)
Lemma reachable_queue_typed w q name g :
  reachable w -> workqueueMetrics (registry w) !! queueKey q name = Some g ->
  ∃ id, g = queueInstrument q name id.
Proof.
  intros Hreach. revert q name g.
  apply (reachable_invariant (fun w => ∀ q name g,
    workqueueMetrics (registry w) !! queueKey q name = Some g ->
    ∃ id, g = queueInstrument q name id)); [| |exact Hreach]; clear w Hreach.
  - intros w Hfresh q name g. apply fresh_inv in Hfresh as (_ & _ & _ & -> & _).
    by rewrite lookup_empty.
  - intros w c w' Hstep IH q name g.
    apply step_registry in Hstep
      as [[-> _]|[(k & o & i & rt & now & name0 & help0 & _ & _ & _ & _ & ->)
         |[(k & _ & ->)|(q0 & name0 & _ & _ & _ & ->)]]].
    + apply IH.
    + rewrite stored_workqueueMetrics. apply IH.
    + destruct (Stop_fixed k (registry w)) as (_ & _ & _ & _ & _ & ->). apply IH.
    + cbn [workqueueMetrics set_workqueueMetrics].
      destruct (decide (queueKey q0 name0 = queueKey q name)) as [Heq|Hne].
      * rewrite Heq, lookup_insert_eq. apply queueKey_inj in Heq as [-> ->].
        intros [= <-]. eauto.
      * rewrite lookup_insert_ne by done. apply IH.
Qed.

(** X13. In every registry reached from [New], the three queue accessors
    never panic, for any queue name: the type assertion on the stored value
    succeeds, and the instrument returned is of the accessor's kind, with
    the accessor's name and help and the queue's name as its label. *)
Theorem queue_accessor_never_panics w q name :
  reachable w ->
  ∃ id next' m',
    queueAccessor q name (next_object w) (registry w)
    = Returns (queueInstrument q name id, next', m')
    ∧ workqueueMetrics m' !! queueKey q name = Some (queueInstrument q name id).
Proof.
  intros Hreach.
  destruct (workqueueMetrics (registry w) !! queueKey q name) as [g|] eqn:Hg.
  - destruct (reachable_queue_typed w q name g Hreach Hg) as [id ->].
    exists id, (next_object w), (registry w).
    split; [by apply queueAccessor_stored|done].
  - eexists _, _, _. split; [by apply queueAccessor_create|].
    cbn [workqueueMetrics set_workqueueMetrics]. by rewrite lookup_insert_eq.
Qed.

Lemma step_next_object w c w' : step w c w' -> next_object w ≤ next_object w'.
Proof.
  assert (Hq : ∀ q name w',
    provide (queueAccessor q) name w = Returns w' -> next_object w ≤ next_object w').
  { intros q name w1. unfold provide.
    destruct (queueAccessor q name _ _) as [[[g n'] m']|] eqn:Hacc; [|discriminate].
    intros [= <-]. simpl.
    apply queueAccessor_inv in Hacc as [(_ & -> & _)|(_ & _ & -> & _)]; lia. }
  intros [l Hl|c0 w0 Hc Hexec]; [simpl; lia|].
  destruct c0 as [key ownerKey newMetric realtime now|key|key| |name|name|name];
    simpl in Hexec.
  - destruct (UpsertCustomMetric _ _ _ _ _ _) as [[e m']|]; [|discriminate].
    injection Hexec as <-. simpl. lia.
  - injection Hexec as <-. simpl. lia.
  - injection Hexec as <-. lia.
  - done.
  - exact (Hq depth name _ Hexec).
  - exact (Hq adds name _ Hexec).
  - exact (Hq latency name _ Hexec).
Qed.

Lemma queueInstrument_id q name id : inst_id (queueInstrument q name id) = id.
Proof. by destruct q. Qed.

Lemma reachable_queue_addresses w :
  reachable w ->
  (∀ k g, workqueueMetrics (registry w) !! k = Some g -> inst_id g < next_object w)
  ∧ (∀ k1 g1 k2 g2,
       workqueueMetrics (registry w) !! k1 = Some g1 ->
       workqueueMetrics (registry w) !! k2 = Some g2 ->
       k1 ≠ k2 -> inst_id g1 ≠ inst_id g2).
Proof.
  apply (reachable_invariant (fun w =>
    (∀ k g, workqueueMetrics (registry w) !! k = Some g -> inst_id g < next_object w)
    ∧ (∀ k1 g1 k2 g2,
         workqueueMetrics (registry w) !! k1 = Some g1 ->
         workqueueMetrics (registry w) !! k2 = Some g2 ->
         k1 ≠ k2 -> inst_id g1 ≠ inst_id g2))); clear w.
  - intros w Hfresh. apply fresh_inv in Hfresh as (_ & _ & _ & Hq & _).
    rewrite Hq. split; intros k g; by rewrite lookup_empty.
  - intros w c w' Hstep [IHlt IHne].
    pose proof (step_next_object _ _ _ Hstep) as Hle.
    assert (Hsame : workqueueMetrics (registry w') = workqueueMetrics (registry w) ->
      (∀ k g, workqueueMetrics (registry w') !! k = Some g -> inst_id g < next_object w')
      ∧ (∀ k1 g1 k2 g2,
           workqueueMetrics (registry w') !! k1 = Some g1 ->
           workqueueMetrics (registry w') !! k2 = Some g2 ->
           k1 ≠ k2 -> inst_id g1 ≠ inst_id g2)).
    { intros ->. split; [|exact IHne].
      intros k g Hg. specialize (IHlt k g Hg). lia. }
    apply step_registry in Hstep
      as [[Hreg _]|[(k & o & i & rt & now & name0 & help0 & _ & _ & _ & _ & Hreg)
         |[(k & _ & Hreg)|(q0 & name0 & _ & _ & Hnext & Hreg)]]].
    + apply Hsame. by rewrite Hreg.
    + apply Hsame. by rewrite Hreg, stored_workqueueMetrics.
    + apply Hsame. rewrite Hreg.
      by destruct (Stop_fixed k (registry w)) as (_ & _ & _ & _ & _ & ->).
    + rewrite Hreg, Hnext. cbn [workqueueMetrics set_workqueueMetrics]. split.
      * intros k g. destruct (decide (queueKey q0 name0 = k)) as [<-|Hne].
        -- rewrite lookup_insert_eq. intros [= <-]. rewrite queueInstrument_id. lia.
        -- rewrite lookup_insert_ne by done. intros Hg. specialize (IHlt k g Hg). lia.
      * intros k1 g1 k2 g2.
        destruct (decide (queueKey q0 name0 = k1)) as [<-|Hne1];
          destruct (decide (queueKey q0 name0 = k2)) as [<-|Hne2].
        -- done.
        -- rewrite lookup_insert_eq, lookup_insert_ne by done.
           intros [= <-] Hg2 _. rewrite queueInstrument_id.
           specialize (IHlt _ _ Hg2). lia.
        -- rewrite lookup_insert_eq, lookup_insert_ne by done.
           intros Hg1 [= <-] _. rewrite queueInstrument_id.
           specialize (IHlt _ _ Hg1). lia.
        -- rewrite !lookup_insert_ne by done. apply IHne.
Qed.

(** X14. In every registry reached from [New], the queue instruments of two
    different queue names, or of two different kinds, are two different
    objects: what is observed through one is not observed through the
    other. *)
Theorem queue_instruments_distinct w q1 name1 g1 q2 name2 g2 :
  reachable w ->
  workqueueMetrics (registry w) !! queueKey q1 name1 = Some g1 ->
  workqueueMetrics (registry w) !! queueKey q2 name2 = Some g2 ->
  (q1, name1) ≠ (q2, name2) ->
  inst_id g1 ≠ inst_id g2.
Proof.
  intros Hreach Hg1 Hg2 Hne.
  destruct (reachable_queue_addresses w Hreach) as [_ Hdistinct].
  eapply Hdistinct; [exact Hg1|exact Hg2|].
  intros Heq. apply queueKey_inj in Heq as [-> ->]. done.
Qed.

Lemma stored_configs key ownerKey i realtime now name help m :
  metricsConfig (stored key ownerKey i realtime now name help m) = metricsConfig m
  ∧ telemetryConfig (stored key ownerKey i realtime now name help m) = telemetryConfig m.
Proof. unfold stored. by destruct realtime. Qed.

Lemma Stop_configs key m :
  metricsConfig (StopRealtimeMetricsForKey key m) = metricsConfig m
  ∧ telemetryConfig (StopRealtimeMetricsForKey key m) = telemetryConfig m.
Proof. unfold StopRealtimeMetricsForKey. by destruct (workflows m !! key). Qed.

Lemma steps_keep_fields w cs w' :
  steps w cs w' ->
  metricsConfig (registry w') = metricsConfig (registry w)
  ∧ telemetryConfig (registry w') = telemetryConfig (registry w)
  ∧ builtinMetrics (registry w') = builtinMetrics (registry w)
  ∧ workflowsByPhase (registry w') = workflowsByPhase (registry w)
  ∧ errors (registry w') = errors (registry w)
  ∧ defaultMetricDescs (registry w') = defaultMetricDescs (registry w).
Proof.
  intros Hsteps.
  eapply (steps_invariant (fun w' =>
    metricsConfig (registry w') = metricsConfig (registry w)
    ∧ telemetryConfig (registry w') = telemetryConfig (registry w)
    ∧ builtinMetrics (registry w') = builtinMetrics (registry w)
    ∧ workflowsByPhase (registry w') = workflowsByPhase (registry w)
    ∧ errors (registry w') = errors (registry w)
    ∧ defaultMetricDescs (registry w') = defaultMetricDescs (registry w)));
    [|exact Hsteps|done].
  - intros w1 c w2 Hstep (IH1 & IH2 & IH3 & IH4 & IH5 & IH6).
    rewrite <- IH1, <- IH2, <- IH3, <- IH4, <- IH5, <- IH6.
    apply step_registry in Hstep
      as [[-> _]|[(k & o & i & rt & now & name0 & help0 & _ & _ & _ & _ & ->)
         |[(k & _ & ->)|(q0 & name0 & _ & _ & _ & ->)]]].
    + done.
    + destruct (stored_configs k o i rt now name0 help0 (registry w1)) as [-> ->].
      destruct (stored_system k o i rt now name0 help0 (registry w1))
        as (-> & -> & -> & ->). done.
    + destruct (Stop_configs k (registry w1)) as [-> ->].
      destruct (Stop_fixed k (registry w1)) as (-> & -> & -> & -> & _). done.
    + done.
Qed.

(** X15. No sequence of calls changes what [New] set up for the system: the
    two server configurations, the twelve instrument fields, the per-phase
    gauges, the per-cause counters and the table of recorded descriptors
    are after the calls what they were before. *)
Theorem calls_keep_system_fields w cs w' :
  steps w cs w' ->
  metricsConfig (registry w') = metricsConfig (registry w)
  ∧ telemetryConfig (registry w') = telemetryConfig (registry w)
  ∧ builtinMetrics (registry w') = builtinMetrics (registry w)
  ∧ workflowsByPhase (registry w') = workflowsByPhase (registry w)
  ∧ errors (registry w') = errors (registry w)
  ∧ defaultMetricDescs (registry w') = defaultMetricDescs (registry w).
Proof. apply steps_keep_fields. Qed.

(** The recorded descriptors are those of the system's instruments. *)
Lemma reachable_recorded_iff w D :
  reachable w ->
  is_Some (defaultMetricDescs (registry w) !! D)
  ↔ ∃ b, b ∈ systemMetrics (registry w) ∧ Desc_String b = D.
Proof.
  intros (w0 & cs & Hfresh & Hsteps).
  apply steps_system in Hsteps as [-> ->].
  by apply fresh_inv in Hfresh as (_ & _ & _ & _ & _ & Hrec).
Qed.

(** X16. In every registry reached from [New], a registration returns an
    error exactly when the instrument's descriptor is that of an instrument
    of the system or its name is registered with another help text; the
    error is the descriptor collision in the first case, whatever the help
    registry holds. *)
Theorem registration_error_iff w key ownerKey i realtime now :
  reachable w ->
  let m := registry w in
  ((∃ b, b ∈ systemMetrics m ∧ Desc_String b = Desc_String i)
   ↔ UpsertCustomMetric key ownerKey (Some i) realtime now m
     = Returns (Some (DescriptorCollision (Desc_String i)), m))
  ∧ (∀ name help existingHelp,
       UpsertCustomMetric key ownerKey (Some i) realtime now m
       = Returns (Some (HelpTextMismatch name help existingHelp), m)
       ↔ (¬ (∃ b, b ∈ systemMetrics m ∧ Desc_String b = Desc_String i))
         ∧ named i name help ∧ metricNameHelps m !! name = Some existingHelp
         ∧ help ≠ existingHelp).
Proof.
  intros Hreach m. subst m.
  pose proof (reachable_recorded_iff w (Desc_String i) Hreach) as Hrec.
  split.
  - rewrite <- Hrec. split; [apply UpsertCustomMetric_collision|].
    intros Hup. apply UpsertCustomMetric_inv in Hup as (? & [= <-] & [Hc|[Hh|Hs]]).
    + by destruct Hc as (? & _).
    + by destruct Hh as (? & ? & ? & _ & _ & _ & _ & [=] & _).
    + by destruct Hs as (? & ? & _ & _ & _ & [=] & _).
  - intros name help existingHelp. rewrite <- Hrec, <- eq_None_not_Some. split.
    + intros Hup. apply UpsertCustomMetric_inv in Hup as (? & [= <-] & [Hc|[Hh|Hs]]).
      * by destruct Hc as (_ & [=] & _).
      * destruct Hh as (? & ? & ? & Hdesc & Hnamed & Hhelp & Hne & [= <- <- <-] & _).
        done.
      * by destruct Hs as (? & ? & _ & _ & _ & [=] & _).
    + intros (Hdesc & Hnamed & Hhelp & Hne). by apply UpsertCustomMetric_mismatch.
Qed.

(** X17. [UpsertCustomMetric] panics exactly when it is given a nil
    instrument, or an instrument whose descriptor the system did not record
    and from which no name and help can be read. *)
Theorem UpsertCustomMetric_panics_iff key ownerKey newMetric realtime now m :
  UpsertCustomMetric key ownerKey newMetric realtime now m = Panics
  ↔ newMetric = None
    ∨ ∃ i, newMetric = Some i
           ∧ defaultMetricDescs m !! Desc_String i = None
           ∧ recoverMetricNameAndHelpFromDesc (Desc_String i) = None.
Proof.
  unfold UpsertCustomMetric, comma_ok. destruct newMetric as [i|]; [|by split; auto].
  destruct (defaultMetricDescs m !! Desc_String i) as [b|] eqn:Hdesc.
  { split; [done|]. intros [[=]|(? & [= <-] & Hnone & _)]. congruence. }
  destruct (recoverMetricNameAndHelpFromDesc (Desc_String i)) as [[name help]|] eqn:Hrec.
  - split.
    + destruct (metricNameHelps m !! name); simpl; [case_bool_decide|]; done.
    + intros [[=]|(? & [= <-] & _ & Hnone)]. congruence.
  - split; [|done]. intros _. right. eauto.
Qed.

(** X18. [SameServerAs] is symmetric, and a configuration is the same
    server as itself exactly when it is enabled. *)
Theorem SameServerAs_symmetric_self s other :
  SameServerAs s other = SameServerAs other s
  ∧ SameServerAs s s = Enabled s.
Proof.
  unfold SameServerAs. split.
  - rewrite (bool_decide_ext (Port s = Port other) (Port other = Port s)) by done.
    rewrite (bool_decide_ext (Path s = Path other) (Path other = Path s)) by done.
    by destruct (bool_decide _), (bool_decide _), (Enabled s), (Enabled other).
  - rewrite !bool_decide_eq_true_2 by done. by destruct (Enabled s).
Qed.


(** ** Updates of the system's instruments *)

(** The fields of the registry [New] returns: the maps the two constructors
    gave, and ten objects allocated one after the other. *)
Lemma New_fields metricsConfig telemetryConfig next0 m next :
  New metricsConfig telemetryConfig next0 = Returns (m, next) ->
  workflowsByPhase m = (getWorkflowPhaseGauges (S next0)).1
  ∧ errors m = (getErrorCounters (S (getWorkflowPhaseGauges (S next0)).2)).1
  ∧ inst_id <$> drop 2 (builtinMetrics m)
    = seq (getErrorCounters (S (getWorkflowPhaseGauges (S next0)).2)).2 10.
Proof.
  unfold New. cbn [newCounter newGauge newHistogram newInstrument].
  destruct (getWorkflowPhaseGauges (S next0)) as [phases n1]. cbn [fst snd].
  destruct (getErrorCounters (S n1)) as [errs n2]. cbn [fst snd].
  rewrite allMetrics_no_dynamic by reflexivity.
  rewrite recordDescs_Some. intros [= <- <-].
  split; [reflexivity|]. split; reflexivity.
Qed.

Lemma reached_fields metricsConfig telemetryConfig next0 m next cs w :
  New metricsConfig telemetryConfig next0 = Returns (m, next) ->
  steps (mkWorld next [] m) cs w ->
  workflowsByPhase (registry w) = (getWorkflowPhaseGauges (S next0)).1
  ∧ errors (registry w) = (getErrorCounters (S (getWorkflowPhaseGauges (S next0)).2)).1
  ∧ inst_id <$> drop 2 (builtinMetrics (registry w))
    = seq (getErrorCounters (S (getWorkflowPhaseGauges (S next0)).2)).2 10.
Proof.
  intros HNew Hsteps.
  apply steps_keep_fields in Hsteps as (_ & _ & -> & -> & -> & _).
  by apply New_fields in HNew.
Qed.

(** X19. The phases whose gauge can be set are fixed when the registry is
    made: after any calls, [SetWorkflowPhaseGauge] sets the gauge that
    [getWorkflowPhaseGauges] made for the phase, and panics for a phase it
    made none for. *)
Theorem phase_gauges_fixed metricsConfig telemetryConfig next0 m next cs w phase num r :
  New metricsConfig telemetryConfig next0 = Returns (m, next) ->
  steps (mkWorld next [] m) cs w ->
  SetWorkflowPhaseGauge phase num (registry w) r
  = match (getWorkflowPhaseGauges (S next0)).1 !! phase with
    | Some g => Returns (send g (DoSet num) r)
    | None => Panics
    end.
Proof.
  intros HNew Hsteps.
  destruct (reached_fields _ _ _ _ _ _ _ HNew Hsteps) as (Hphases & _).
  unfold SetWorkflowPhaseGauge. by rewrite Hphases.
Qed.

(** X20. Likewise for the two error methods: after any calls,
    [OperationPanic] and [CronWorkflowSubmissionError] increment the counter
    that [getErrorCounters] made for their cause, and panic if it made
    none. *)
Theorem error_counters_fixed metricsConfig telemetryConfig next0 m next cs w r :
  New metricsConfig telemetryConfig next0 = Returns (m, next) ->
  steps (mkWorld next [] m) cs w ->
  let counters := (getErrorCounters (S (getWorkflowPhaseGauges (S next0)).2)).1 in
  OperationPanic (registry w) r
  = match counters !! ErrorCauseOperationPanic with
    | Some c => Returns (send c DoInc r)
    | None => Panics
    end
  ∧ CronWorkflowSubmissionError (registry w) r
    = match counters !! ErrorCauseCronWorkflowSubmissionError with
      | Some c => Returns (send c DoInc r)
      | None => Panics
      end.
Proof.
  intros HNew Hsteps counters. subst counters.
  destruct (reached_fields _ _ _ _ _ _ _ HNew Hsteps) as (_ & Herrors & _).
  unfold OperationPanic, CronWorkflowSubmissionError. by rewrite Herrors.
Qed.

Lemma send_lookup_ne i o r id :
  inst_id i ≠ id -> send i o r !! id = r !! id.
Proof. intros Hne. unfold send. by rewrite lookup_insert_ne. Qed.

Lemma send_commute i j o o' r :
  inst_id i ≠ inst_id j ->
  send i o (send j o' r) = send j o' (send i o r).
Proof.
  intros Hne. unfold send.
  rewrite (lookup_insert_ne r (inst_id j) (inst_id i)) by done.
  rewrite (lookup_insert_ne r (inst_id i) (inst_id j)) by done.
  by apply insert_insert_ne.
Qed.

(** X21. In a registry made by [New], after any calls, the ten methods from
    [UpdatePodDeletionLatency] to [IncrementDeadlineExceeded] write to ten
    different objects: no object is written by two different methods, and
    calls of two different methods can be made in either order. *)
Theorem updates_do_not_interfere metricsConfig telemetryConfig next0 m next cs w u u' r :
  New metricsConfig telemetryConfig next0 = Returns (m, next) ->
  steps (mkWorld next [] m) cs w ->
  method u ≠ method u' ->
  (∀ id, update u (registry w) r !! id = r !! id
         ∨ update u' (registry w) r !! id = r !! id)
  ∧ update u (registry w) (update u' (registry w) r)
    = update u' (registry w) (update u (registry w) r).
Proof.
  intros HNew Hsteps Hne.
  destruct (reached_fields _ _ _ _ _ _ _ HNew Hsteps) as (_ & _ & Hids).
  set (n := (getErrorCounters (S (getWorkflowPhaseGauges (S next0)).2)).2) in Hids.
  cbn in Hids.
  injection Hids as H0 H1 H2 H3 H4 H5 H6 H7 H8 H9.
  split.
  - intros id.
    destruct u, u'; simpl in Hne; try done; cbn [update];
      unfold UpdatePodDeletionLatency, IncrementPodGCAddedToQueue,
        IncrementPodGCRemovedFromQueue, IncrementPodInformerAddPod,
        IncrementPodInformerUpdatePod, IncrementPodInformerDeletePod,
        UpdateProcessNextItemDuration, UpdateWorkflowQueueDepth,
        UpdatePodQueueDepth, IncrementDeadlineExceeded;
      match goal with
      | |- send ?i _ _ !! _ = _ ∨ send ?j _ _ !! _ = _ =>
          destruct (decide (inst_id i = id)) as [<-|Hid];
            [right; apply send_lookup_ne; lia|left; by apply send_lookup_ne]
      end.
  - destruct u, u'; simpl in Hne; try done; cbn [update];
      unfold UpdatePodDeletionLatency, IncrementPodGCAddedToQueue,
        IncrementPodGCRemovedFromQueue, IncrementPodInformerAddPod,
        IncrementPodInformerUpdatePod, IncrementPodInformerDeletePod,
        UpdateProcessNextItemDuration, UpdateWorkflowQueueDepth,
        UpdatePodQueueDepth, IncrementDeadlineExceeded;
      apply send_commute; lia.
Qed.


(** ** The log hook *)

Section LogHookFacts.

Context {logrus : Logrus}.

Lemma WithLabelValues_lookup lv v s :
  WithLabelValues lv v !! s
  = match v !! s with
    | Some n => Some n
    | None => if decide (s = lv) then Some 0 else None
    end.
Proof.
  unfold WithLabelValues. destruct (decide (s = lv)) as [->|Hne].
  - destruct (v !! lv) as [n|] eqn:Hlv; [by rewrite Hlv|].
    by rewrite lookup_insert_eq.
  - destruct (v !! lv) as [n|] eqn:Hlv; [by destruct (v !! s)|].
    rewrite lookup_insert_ne by done. by destruct (v !! s).
Qed.

Lemma Fire_lookup level v s :
  (Fire level v).2 !! s
  = if decide (s = Level_String level) then Some (S (default 0 (v !! s))) else v !! s.
Proof.
  unfold Fire, WithLabelValues_Inc. simpl.
  destruct (decide (s = Level_String level)) as [->|Hne].
  - rewrite lookup_insert_eq, WithLabelValues_lookup.
    destruct (v !! Level_String level); [done|]. by rewrite decide_True.
  - rewrite lookup_insert_ne by done. rewrite WithLabelValues_lookup.
    destruct (v !! s); [done|]. by rewrite decide_False.
Qed.

(** How many of [levels] have the name [s]. *)
Lemma fired_lookup levels v s :
  fired levels v !! s
  = match v !! s with
    | Some n => Some (n + length (filter (fun l => Level_String l = s) levels))
    | None =>
        if decide (s ∈ Level_String <$> levels)
        then Some (length (filter (fun l => Level_String l = s) levels))
        else None
    end.
Proof.
  revert v. induction levels as [|l levels IH]; intros v.
  - simpl. destruct (v !! s) as [n|]; [f_equal; lia|].
    destruct (decide (s ∈ [])) as [Hin|_]; [by apply elem_of_nil in Hin|done].
  - change (fired (l :: levels) v) with (fired levels (Fire l v).2).
    rewrite IH, Fire_lookup, filter_cons.
    destruct (decide (s = Level_String l)) as [->|Hne].
    + rewrite (decide_True (P := Level_String l = Level_String l)) by done. simpl length.
      destruct (v !! Level_String l) as [n|]; simpl.
      * f_equal. lia.
      * rewrite decide_True; [done|]. apply elem_of_cons. by left.
    + rewrite (decide_False (P := Level_String l = s)) by congruence.
      destruct (v !! s) as [n|]; [done|].
      rewrite fmap_cons.
      destruct (decide (s ∈ Level_String <$> levels)) as [Hin|Hnin].
      * rewrite decide_True; [done|]. by right.
      * rewrite decide_False; [done|]. by intros [?|?]%elem_of_cons.
Qed.

Lemma New_logMetric_lookup s :
  New_logMetric !! s = if decide (s ∈ Level_String <$> Levels) then Some 0 else None.
Proof.
  unfold New_logMetric, Levels. simpl. rewrite !WithLabelValues_lookup, lookup_empty.
  destruct (decide (s = Level_String InfoLevel)) as [->|H1].
  { rewrite decide_True; [done|]. by left. }
  destruct (decide (s = Level_String WarnLevel)) as [->|H2].
  { rewrite decide_True; [done|]. right. by left. }
  destruct (decide (s = Level_String ErrorLevel)) as [->|H3].
  { rewrite decide_True; [done|]. right. right. by left. }
  rewrite decide_False; [done|].
  intros Hin. repeat (apply elem_of_cons in Hin as [?|Hin]; [done|]).
  by apply elem_of_nil in Hin.
Qed.

(** X22. The counter vector of the log hook has, from [New] on, a series
    for each of the three levels [Levels] returns. After the hook has fired
    for any entries, every series is still there, the series of a level name
    counts the entries fired with that name, and a name that is neither one
    of the three nor the name of a fired entry has no series. *)
Theorem log_series_count levels s :
  fired levels New_logMetric !! s
  = if decide (s ∈ Level_String <$> (Levels ++ levels))
    then Some (length (filter (fun l => Level_String l = s) levels))
    else None.
Proof.
  rewrite fired_lookup, New_logMetric_lookup, fmap_app.
  destruct (decide (s ∈ Level_String <$> Levels)) as [H1|H1].
  - rewrite decide_True; [done|]. apply elem_of_app. by left.
  - destruct (decide (s ∈ Level_String <$> levels)) as [H2|H2].
    + rewrite decide_True; [done|]. apply elem_of_app. by right.
    + rewrite decide_False; [done|]. by intros [?|?]%elem_of_app.
Qed.

End LogHookFacts.


End Properties.

(** * The properties on the sample registry *)

Section SampleFacts.

#[local] Existing Instance sample.

Ltac evaluate := vm_compute; reflexivity.

(** Proves [steps w cs w'] for worlds built with [after]. *)
Ltac stepping :=
  repeat (eapply steps_cons; [apply returns_step; evaluate|]); apply steps_nil.

Lemma sample_world_fresh : fresh sample_world.
Proof.
  unfold fresh, sample_world.
  destruct (New_inv sample_config sample_config 0) as (m & next & HNew & _).
  rewrite HNew. exists sample_config, sample_config, 0, m, next.
  split; [exact HNew|reflexivity].
Qed.

Lemma sample_steps_reachable cs w : steps sample_world cs w -> reachable w.
Proof. intros Hsteps. exists sample_world, cs. split; [apply sample_world_fresh|exact Hsteps]. Qed.

(** C1 on the sample registry: an instrument with the descriptor of
    [workflowsProcessed] is refused, and nothing changes. *)
Lemma UpsertCustomMetric_builtin_collision_witness :
  reachable sample_world
  ∧ workflowsProcessed (registry sample_world) ∈ systemMetrics (registry sample_world)
  ∧ Desc_String processed_again = Desc_String (workflowsProcessed (registry sample_world))
  ∧ UpsertCustomMetric "k" "run-A" (Some processed_again) true 1%Z (registry sample_world)
    = Returns (Some (DescriptorCollision
                       (Desc_String (workflowsProcessed (registry sample_world)))),
               registry sample_world).
Proof.
  assert (Hreach : reachable sample_world).
  { apply (sample_steps_reachable []). apply steps_nil. }
  assert (Hin : workflowsProcessed (registry sample_world)
                ∈ systemMetrics (registry sample_world)).
  { unfold systemMetrics, builtinMetrics. apply elem_of_app. left. left. }
  assert (Hdesc : Desc_String processed_again
                  = Desc_String (workflowsProcessed (registry sample_world))) by evaluate.
  split; [exact Hreach|]. split; [exact Hin|]. split; [exact Hdesc|].
  exact (UpsertCustomMetric_builtin_collision sample_world
           (workflowsProcessed (registry sample_world)) processed_again
           "k" "run-A" true 1%Z Hreach Hin Hdesc).
Defined.

(** C2 as stated fails: the name of [workflowsProcessed] is registered with
    the help of [processed_other_help]; registering [processed_again], of the
    same name and another help, returns the descriptor collision, not the
    help mismatch. *)
Lemma help_mismatch_counterexample :
  reachable world_borrowed
  ∧ metricNameHelps (registry world_borrowed) !! "workflows_processed_count"
    = Some "Workflows seen"
  ∧ named processed_again "workflows_processed_count" "Number of workflow updates processed"
  ∧ "Number of workflow updates processed" ≠ "Workflows seen"
  ∧ UpsertCustomMetric "k2" "run-B" (Some processed_again) true 2%Z (registry world_borrowed)
    = Returns (Some (DescriptorCollision (Desc_String processed_again)),
               registry world_borrowed).
Proof.
  split.
  { apply (sample_steps_reachable [register_borrowed]).
    unfold world_borrowed. stepping. }
  split; [evaluate|]. split; [evaluate|]. split; [discriminate|].
  apply UpsertCustomMetric_collision. vm_compute. eexists. reflexivity.
Qed.

(** C2 as amended, on the sample registry: [duration_other_help] after
    [duration_gauge]. *)
Lemma UpsertCustomMetric_help_mismatch_witness :
  metricNameHelps (registry world_registered) !! "step_duration" = Some "Duration of the step"
  ∧ named duration_other_help "step_duration" "Seconds the step took"
  ∧ "Seconds the step took" ≠ "Duration of the step"
  ∧ defaultMetricDescs (registry world_registered) !! Desc_String duration_other_help = None
  ∧ UpsertCustomMetric "k9" "run-B" (Some duration_other_help) false 5%Z
      (registry world_registered)
    = Returns (Some (HelpTextMismatch "step_duration" "Seconds the step took"
                       "Duration of the step"),
               registry world_registered).
Proof.
  assert (H1 : metricNameHelps (registry world_registered) !! "step_duration"
               = Some "Duration of the step") by evaluate.
  assert (H2 : named duration_other_help "step_duration" "Seconds the step took") by evaluate.
  assert (H3 : "Seconds the step took" ≠ "Duration of the step") by discriminate.
  assert (H4 : defaultMetricDescs (registry world_registered)
               !! Desc_String duration_other_help = None) by evaluate.
  split; [exact H1|]. split; [exact H2|]. split; [exact H3|]. split; [exact H4|].
  exact (UpsertCustomMetric_help_mismatch (registry world_registered)
           duration_other_help "k9" "run-B" false 5%Z _ _ _ H1 H2 H3 H4).
Defined.

(** C3 on the sample registry, with a snapshot between the two registrations
    and a queue accessor after them. *)
Lemma owner_lifecycle_witness :
  UpsertCustomMetric "m1" "run-A" (Some duration_gauge) true 1%Z (registry sample_world)
  = Returns (None, registry lifecycle_1)
  ∧ steps (with_registry (registry lifecycle_1) sample_world) [CallAllMetrics] lifecycle_2
  ∧ UpsertCustomMetric "m2" "run-A" (Some retries_counter) true 2%Z (registry lifecycle_2)
    = Returns (None, registry lifecycle_3)
  ∧ steps (with_registry (registry lifecycle_3) lifecycle_2)
      [CallNewDepthMetric "workflow"] lifecycle_4
  ∧ (CallStopRealtimeMetricsForKey "run-A"
     ∉ [CallAllMetrics] ++ [CallNewDepthMetric "workflow"])
  ∧ GetCustomMetric "m1" (StopRealtimeMetricsForKey "run-A" (registry lifecycle_4)) = None
  ∧ GetCustomMetric "m2" (StopRealtimeMetricsForKey "run-A" (registry lifecycle_4)) = None
  ∧ StopRealtimeMetricsForKey "run-A"
      (StopRealtimeMetricsForKey "run-A" (registry lifecycle_4))
    = StopRealtimeMetricsForKey "run-A" (registry lifecycle_4).
Proof.
  assert (H1 : UpsertCustomMetric "m1" "run-A" (Some duration_gauge) true 1%Z
                 (registry sample_world) = Returns (None, registry lifecycle_1)).
  { unfold lifecycle_1, register_m1. apply registers_after. evaluate. }
  assert (H2 : steps (with_registry (registry lifecycle_1) sample_world)
                 [CallAllMetrics] lifecycle_2).
  { unfold lifecycle_2. stepping. }
  assert (H3 : UpsertCustomMetric "m2" "run-A" (Some retries_counter) true 2%Z
                 (registry lifecycle_2) = Returns (None, registry lifecycle_3)).
  { unfold lifecycle_3, register_m2. apply registers_after. evaluate. }
  assert (H4 : steps (with_registry (registry lifecycle_3) lifecycle_2)
                 [CallNewDepthMetric "workflow"] lifecycle_4).
  { unfold lifecycle_4. stepping. }
  assert (H5 : CallStopRealtimeMetricsForKey "run-A"
               ∉ [CallAllMetrics] ++ [CallNewDepthMetric "workflow"]).
  { simpl. intros Hin.
    repeat (apply elem_of_cons in Hin as [Hin|Hin]; [discriminate Hin|]).
    by apply elem_of_nil in Hin. }
  split; [exact H1|]. split; [exact H2|]. split; [exact H3|]. split; [exact H4|].
  split; [exact H5|].
  exact (owner_lifecycle sample_world (Some duration_gauge) 1%Z (registry lifecycle_1)
           [CallAllMetrics] lifecycle_2 (Some retries_counter) 2%Z (registry lifecycle_3)
           [CallNewDepthMetric "workflow"] lifecycle_4 H1 H2 H3 H4 H5).
Defined.

(** C4 as stated fails: two workflows register the same key and the first
    ends. The key is still in the index of the second, and has no entry. *)
Lemma index_consistent_counterexample :
  fresh sample_world
  ∧ steps sample_world [register_duration; register_duration_B; stop_A] world_shared_key
  ∧ workflows (registry world_shared_key) !! "run-B" = Some ["k"]
  ∧ customMetrics (registry world_shared_key) !! "k" = None
  ∧ ¬ index_consistent (registry world_shared_key).
Proof.
  assert (Hwf : workflows (registry world_shared_key) !! "run-B" = Some ["k"]) by evaluate.
  assert (Hcm : customMetrics (registry world_shared_key) !! "k" = None) by evaluate.
  split; [apply sample_world_fresh|].
  split; [unfold world_shared_key, world_registered; stepping|].
  split; [exact Hwf|]. split; [exact Hcm|].
  intros Hcons.
  destruct (Hcons "run-B" "k") as [e He].
  - exists ["k"]. split; [exact Hwf|]. left.
  - rewrite Hcm in He. discriminate He.
Qed.

(** C4 as amended, on the sample registry: two workflows with keys of their
    own. *)
Lemma index_consistent_one_owner_witness :
  fresh sample_world
  ∧ steps sample_world [register_duration; register_retries_B; stop_A] world_own_keys
  ∧ one_owner [register_duration; register_retries_B; stop_A]
  ∧ index_consistent (registry world_own_keys).
Proof.
  assert (H1 : steps sample_world [register_duration; register_retries_B; stop_A]
                 world_own_keys).
  { unfold world_own_keys, world_registered. stepping. }
  assert (H2 : one_owner [register_duration; register_retries_B; stop_A]).
  { intros k o1 o2 i1 i2 t1 t2 Ha Hb.
    repeat (apply elem_of_cons in Ha as [Ha|Ha]);
      repeat (apply elem_of_cons in Hb as [Hb|Hb]);
      try (by apply elem_of_nil in Ha); try (by apply elem_of_nil in Hb);
      unfold register_duration, register_retries_B, stop_A in Ha, Hb;
      congruence. }
  split; [apply sample_world_fresh|]. split; [exact H1|]. split; [exact H2|].
  exact (index_consistent_one_owner sample_world _ world_own_keys
           sample_world_fresh H1 H2).
Defined.

(** C5 as stated fails: the same key registered twice for the same owner is
    twice in the owner's index. *)
Lemma duplicate_index_entry_counterexample :
  UpsertCustomMetric "k" "run-A" (Some duration_gauge) true 1%Z (registry sample_world)
  = Returns (None, registry world_registered)
  ∧ UpsertCustomMetric "k" "run-A" (Some duration_gauge) true 2%Z (registry world_registered)
    = Returns (None, registry world_registered_twice)
  ∧ workflows (registry world_registered_twice) !! "run-A" = Some ["k"; "k"]
  ∧ occurrences "k" ["k"; "k"] = 2.
Proof.
  split; [unfold world_registered, register_duration; apply registers_after; evaluate|].
  split; [unfold world_registered_twice, register_duration_again;
          apply registers_after; evaluate|].
  split; evaluate.
Qed.

(** C5 as amended, on the sample registry: the first registration of a key. *)
Lemma UpsertCustomMetric_appends_to_index_witness :
  UpsertCustomMetric "k" "run-A" (Some duration_gauge) true 1%Z (registry sample_world)
  = Returns (None, registry world_registered)
  ∧ workflows (registry world_registered) !! "run-A"
    = Some (default [] (workflows (registry sample_world) !! "run-A") ++ ["k"]).
Proof.
  assert (H1 : UpsertCustomMetric "k" "run-A" (Some duration_gauge) true 1%Z
                 (registry sample_world) = Returns (None, registry world_registered)).
  { unfold world_registered, register_duration. apply registers_after. evaluate. }
  split; [exact H1|].
  exact (proj1 (UpsertCustomMetric_appends_to_index (registry sample_world) "k" "run-A"
                  (Some duration_gauge) 1%Z (registry world_registered) H1)).
Defined.

(** C6 on the sample registry: [retries_counter] registered over
    [duration_gauge]. *)
Lemma UpsertCustomMetric_overwrites_witness :
  UpsertCustomMetric "k" "run-A" (Some duration_gauge) true 1%Z (registry sample_world)
  = Returns (None, registry world_registered)
  ∧ UpsertCustomMetric "k" "run-A" (Some retries_counter) true 2%Z (registry world_registered)
    = Returns (None, registry world_overwritten)
  ∧ GetCustomMetric "k" (registry world_overwritten) = Some retries_counter.
Proof.
  assert (H1 : UpsertCustomMetric "k" "run-A" (Some duration_gauge) true 1%Z
                 (registry sample_world) = Returns (None, registry world_registered)).
  { unfold world_registered, register_duration. apply registers_after. evaluate. }
  assert (H2 : UpsertCustomMetric "k" "run-A" (Some retries_counter) true 2%Z
                 (registry world_registered) = Returns (None, registry world_overwritten)).
  { unfold world_overwritten, register_retries_over. apply registers_after. evaluate. }
  split; [exact H1|]. split; [exact H2|].
  exact (proj1 (proj2 (proj2 (UpsertCustomMetric_overwrites (registry sample_world)
    "k" "run-A" duration_gauge retries_counter true 1%Z 2%Z
    (registry world_registered) (registry world_overwritten) H1 H2)))).
Defined.

(** C7 on the sample registry: a snapshot, then a registration. *)
Lemma snapshot_stable_witness :
  allMetrics_returns (registry sample_world) (allMetrics (registry sample_world))
  ∧ steps world_snapshot [register_duration] world_snapshot_registered
  ∧ snapshots world_snapshot_registered !! length (snapshots sample_world)
    = Some (allMetrics (registry sample_world))
  ∧ length (allMetrics (registry sample_world))
    = 12 + size (workflowsByPhase (registry sample_world))
      + size (errors (registry sample_world))
      + size (workqueueMetrics (registry sample_world))
      + size (customMetrics (registry sample_world)).
Proof.
  assert (H1 : allMetrics_returns (registry sample_world)
                 (allMetrics (registry sample_world)))
    by apply allMetrics_returns_allMetrics.
  assert (H2 : steps world_snapshot [register_duration] world_snapshot_registered).
  { unfold world_snapshot_registered. stepping. }
  split; [exact H1|]. split; [exact H2|].
  exact (proj2 (snapshot_stable sample_world (allMetrics (registry sample_world))
                  [register_duration] world_snapshot_registered H1 H2)).
Defined.

(** C8 on the sample registry: the depth instrument of the queue named
    workflow. *)
Lemma queue_instrument_memoized_witness :
  fresh sample_world
  ∧ steps sample_world [] sample_world
  ∧ (queueCall depth "workflow" ∉ [])
  ∧ ∃ m1,
      queueAccessor depth "workflow" (next_object sample_world) (registry sample_world)
      = Returns (queueInstrument depth "workflow" (next_object sample_world),
                 S (next_object sample_world), m1)
      ∧ workqueueMetrics m1 !! queueKey depth "workflow"
        = Some (queueInstrument depth "workflow" (next_object sample_world))
      ∧ ∀ cs' w',
          steps (mkWorld (S (next_object sample_world)) (snapshots sample_world) m1) cs' w' ->
          queueAccessor depth "workflow" (next_object w') (registry w')
          = Returns (queueInstrument depth "workflow" (next_object sample_world),
                     next_object w', registry w').
Proof.
  assert (H3 : queueCall depth "workflow" ∉ []) by apply not_elem_of_nil.
  split; [apply sample_world_fresh|]. split; [apply steps_nil|]. split; [exact H3|].
  exact (queue_instrument_memoized depth "workflow" sample_world [] sample_world
           sample_world_fresh (steps_nil sample_world) H3).
Defined.

(** C9 on the sample registry: [workflowsProcessed] is in the snapshot. *)
Lemma allMetrics_complete_witness :
  allMetrics_returns (registry sample_world) (allMetrics (registry sample_world))
  ∧ Some (workflowsProcessed (registry sample_world)) ∈ allMetrics (registry sample_world).
Proof.
  assert (H1 : allMetrics_returns (registry sample_world)
                 (allMetrics (registry sample_world)))
    by apply allMetrics_returns_allMetrics.
  split; [exact H1|].
  apply (proj1 (allMetrics_complete sample_world (allMetrics (registry sample_world)) H1)).
  unfold builtinMetrics. left.
Defined.

(** C10 as stated fails: the workflow that registered the name of
    [workflowsProcessed] with a help of its own has ended and no custom
    metric is left; registering [processed_again], of the same name and
    another help, returns the descriptor collision, not the help mismatch. *)
Lemma help_binding_counterexample :
  reachable world_borrowed_stopped
  ∧ customMetrics (registry world_borrowed_stopped) = ∅
  ∧ metricNameHelps (registry world_borrowed_stopped) !! "workflows_processed_count"
    = Some "Workflows seen"
  ∧ named processed_again "workflows_processed_count" "Number of workflow updates processed"
  ∧ "Number of workflow updates processed" ≠ "Workflows seen"
  ∧ UpsertCustomMetric "k2" "run-B" (Some processed_again) true 3%Z
      (registry world_borrowed_stopped)
    = Returns (Some (DescriptorCollision (Desc_String processed_again)),
               registry world_borrowed_stopped).
Proof.
  split.
  { apply (sample_steps_reachable [register_borrowed; stop_A]).
    unfold world_borrowed_stopped, world_borrowed. stepping. }
  split; [evaluate|]. split; [evaluate|]. split; [evaluate|]. split; [discriminate|].
  apply UpsertCustomMetric_collision. vm_compute. eexists. reflexivity.
Qed.

(** C10 as amended, on the sample registry: [duration_other_help] after the
    workflow that registered [duration_gauge] has ended. *)
Lemma help_binding_permanent_witness :
  metricNameHelps (registry world_registered) !! "step_duration" = Some "Duration of the step"
  ∧ steps world_registered [stop_A] world_stopped
  ∧ named duration_other_help "step_duration" "Seconds the step took"
  ∧ "Seconds the step took" ≠ "Duration of the step"
  ∧ defaultMetricDescs (registry world_stopped) !! Desc_String duration_other_help = None
  ∧ customMetrics (registry world_stopped) = ∅
  ∧ metricNameHelps (registry world_stopped) !! "step_duration" = Some "Duration of the step"
  ∧ UpsertCustomMetric "k9" "run-B" (Some duration_other_help) false 5%Z
      (registry world_stopped)
    = Returns (Some (HelpTextMismatch "step_duration" "Seconds the step took"
                       "Duration of the step"),
               registry world_stopped).
Proof.
  assert (H1 : metricNameHelps (registry world_registered) !! "step_duration"
               = Some "Duration of the step") by evaluate.
  assert (H2 : steps world_registered [stop_A] world_stopped).
  { unfold world_stopped. stepping. }
  assert (H3 : named duration_other_help "step_duration" "Seconds the step took") by evaluate.
  assert (H4 : "Seconds the step took" ≠ "Duration of the step") by discriminate.
  assert (H5 : defaultMetricDescs (registry world_stopped)
               !! Desc_String duration_other_help = None) by evaluate.
  assert (H6 : customMetrics (registry world_stopped) = ∅) by evaluate.
  split; [exact H1|]. split; [exact H2|]. split; [exact H3|]. split; [exact H4|].
  split; [exact H5|]. split; [exact H6|].
  exact (help_binding_permanent world_registered [stop_A] world_stopped
           "step_duration" "Duration of the step" duration_other_help
           "k9" "run-B" false 5%Z "Seconds the step took" H1 H2 H3 H4 H5).
Defined.


Lemma sample_New :
  New sample_config sample_config 0
  = Returns (registry sample_world, next_object sample_world).
Proof.
  unfold sample_world.
  destruct (New_inv sample_config sample_config 0) as (m & next & HNew & _).
  rewrite HNew. reflexivity.
Qed.

Lemma sample_registers_duration :
  UpsertCustomMetric "k" "run-A" (Some duration_gauge) true 1%Z (registry sample_world)
  = Returns (None, registry world_registered).
Proof. unfold world_registered, register_duration. apply registers_after. evaluate. Qed.

Lemma world_registered_reachable : reachable world_registered.
Proof.
  apply (sample_steps_reachable [register_duration]). unfold world_registered. stepping.
Qed.

(** X4 on the sample registry: [processed_again] is refused. *)
Lemma rejected_registration_changes_nothing_witness :
  UpsertCustomMetric "k" "run-A" (Some processed_again) true 1%Z (registry sample_world)
  = Returns (Some (DescriptorCollision (Desc_String processed_again)),
             registry sample_world)
  ∧ ∃ i, Some processed_again = Some i
    ∧ ((DescriptorCollision (Desc_String processed_again)
        = DescriptorCollision (Desc_String i)
        ∧ is_Some (defaultMetricDescs (registry sample_world) !! Desc_String i))
       ∨ ∃ name help existingHelp,
           DescriptorCollision (Desc_String processed_again)
           = HelpTextMismatch name help existingHelp
           ∧ named i name help
           ∧ metricNameHelps (registry sample_world) !! name = Some existingHelp
           ∧ help ≠ existingHelp).
Proof.
  assert (H1 : UpsertCustomMetric "k" "run-A" (Some processed_again) true 1%Z
                 (registry sample_world)
               = Returns (Some (DescriptorCollision (Desc_String processed_again)),
                          registry sample_world)).
  { apply UpsertCustomMetric_collision. vm_compute. eexists. reflexivity. }
  split; [exact H1|].
  exact (proj2 (rejected_registration_changes_nothing _ _ _ _ _ _ _ _ H1)).
Defined.

(** X5 on the sample registry. *)
Lemma registered_metric_is_found_witness :
  UpsertCustomMetric "k" "run-A" (Some duration_gauge) true 1%Z (registry sample_world)
  = Returns (None, registry world_registered)
  ∧ GetCustomMetric "k" (registry world_registered) = Some duration_gauge.
Proof.
  split; [exact sample_registers_duration|].
  exact (proj1 (registered_metric_is_found _ _ _ _ _ _ _ sample_registers_duration)).
Defined.

(** X8 on the sample registry. *)
Lemma unowned_metric_survives_removal_witness :
  UpsertCustomMetric "u" "run-A" (Some retries_counter) false 3%Z (registry sample_world)
  = Returns (None, registry world_unowned)
  ∧ ¬ tracked (registry sample_world) "run-A" "u"
  ∧ GetCustomMetric "u" (StopRealtimeMetricsForKey "run-A" (registry world_unowned))
    = Some retries_counter.
Proof.
  assert (H1 : UpsertCustomMetric "u" "run-A" (Some retries_counter) false 3%Z
                 (registry sample_world) = Returns (None, registry world_unowned)).
  { unfold world_unowned, register_unowned. apply registers_after. evaluate. }
  assert (H2 : ¬ tracked (registry sample_world) "run-A" "u").
  { assert (Hnone : workflows (registry sample_world) !! "run-A" = None) by evaluate.
    intros (ks & Hks & _). rewrite Hnone in Hks. discriminate Hks. }
  split; [exact H1|]. split; [exact H2|].
  exact (proj2 (unowned_metric_survives_removal _ _ _ _ _ _ "run-A" H1 H2)).
Defined.

(** X9 on the sample registry. *)
Lemma custom_metrics_never_shadow_witness :
  reachable world_registered
  ∧ customMetrics (registry world_registered) !! "k" = Some (mkMetric (Some duration_gauge) 1%Z)
  ∧ ∃ i, metric_metric (mkMetric (Some duration_gauge) 1%Z) = Some i
         ∧ ∀ b, b ∈ systemMetrics (registry world_registered) ->
                Desc_String i ≠ Desc_String b.
Proof.
  assert (H2 : customMetrics (registry world_registered) !! "k"
               = Some (mkMetric (Some duration_gauge) 1%Z)) by evaluate.
  split; [exact world_registered_reachable|]. split; [exact H2|].
  exact (custom_metrics_never_shadow world_registered "k" _
           world_registered_reachable H2).
Defined.

(** X10 on the sample registry. *)
Lemma GetCustomMetric_nil_iff_absent_witness :
  reachable world_registered
  ∧ (GetCustomMetric "k" (registry world_registered) = None
     ↔ customMetrics (registry world_registered) !! "k" = None).
Proof.
  split; [exact world_registered_reachable|].
  exact (GetCustomMetric_nil_iff_absent world_registered "k" world_registered_reachable).
Defined.

(** X11 on the sample registry: [duration_gauge] under two keys. *)
Lemma same_name_same_help_witness :
  reachable world_same_name
  ∧ customMetrics (registry world_same_name) !! "k" = Some (mkMetric (Some duration_gauge) 1%Z)
  ∧ customMetrics (registry world_same_name) !! "k3"
    = Some (mkMetric (Some duration_gauge) 2%Z)
  ∧ named duration_gauge "step_duration" "Duration of the step"
  ∧ metricNameHelps (registry world_same_name) !! "step_duration"
    = Some "Duration of the step".
Proof.
  assert (H1 : reachable world_same_name).
  { apply (sample_steps_reachable [register_duration; register_duration_k3]).
    unfold world_same_name, world_registered. stepping. }
  assert (H2 : customMetrics (registry world_same_name) !! "k"
               = Some (mkMetric (Some duration_gauge) 1%Z)) by evaluate.
  assert (H3 : customMetrics (registry world_same_name) !! "k3"
               = Some (mkMetric (Some duration_gauge) 2%Z)) by evaluate.
  assert (H4 : named duration_gauge "step_duration" "Duration of the step") by evaluate.
  split; [exact H1|]. split; [exact H2|]. split; [exact H3|]. split; [exact H4|].
  exact (proj2 (same_name_same_help world_same_name "k" _ duration_gauge "k3" _
                  duration_gauge "step_duration" "Duration of the step"
                  "Duration of the step" H1 H2 eq_refl H3 eq_refl H4 H4)).
Defined.

(** X12 on the sample registry. *)
Lemma allMetrics_exact_witness :
  reachable sample_world
  ∧ allMetrics_returns (registry sample_world) (allMetrics (registry sample_world))
  ∧ Some (workflowsProcessed (registry sample_world)) ∈ allMetrics (registry sample_world)
  ∧ ∃ i, Some (workflowsProcessed (registry sample_world)) = Some i
      ∧ (i ∈ builtinMetrics (registry sample_world)
         ∨ (∃ phase, workflowsByPhase (registry sample_world) !! phase = Some i)
         ∨ (∃ cause, errors (registry sample_world) !! cause = Some i)
         ∨ (∃ key, workqueueMetrics (registry sample_world) !! key = Some i)
         ∨ (∃ key e, customMetrics (registry sample_world) !! key = Some e
                     ∧ metric_metric e = Some i)).
Proof.
  assert (H1 : reachable sample_world).
  { apply (sample_steps_reachable []). apply steps_nil. }
  assert (H2 : allMetrics_returns (registry sample_world)
                 (allMetrics (registry sample_world)))
    by apply allMetrics_returns_allMetrics.
  assert (H3 : Some (workflowsProcessed (registry sample_world))
               ∈ allMetrics (registry sample_world)).
  { unfold allMetrics, allMetrics_of. apply elem_of_app. left.
    apply list_elem_of_fmap_2. unfold builtinMetrics. left. }
  split; [exact H1|]. split; [exact H2|]. split; [exact H3|].
  exact (allMetrics_exact sample_world _ _ H1 H2 H3).
Defined.

(** X13 on the sample registry. *)
Lemma queue_accessor_never_panics_witness :
  reachable sample_world
  ∧ ∃ id next' m',
      queueAccessor latency "pod" (next_object sample_world) (registry sample_world)
      = Returns (queueInstrument latency "pod" id, next', m')
      ∧ workqueueMetrics m' !! queueKey latency "pod"
        = Some (queueInstrument latency "pod" id).
Proof.
  assert (H1 : reachable sample_world).
  { apply (sample_steps_reachable []). apply steps_nil. }
  split; [exact H1|].
  exact (queue_accessor_never_panics sample_world latency "pod" H1).
Defined.

(** X14 on the sample registry: the depth and the adds instrument of one
    queue. *)
Lemma queue_instruments_distinct_witness :
  reachable world_queues
  ∧ workqueueMetrics (registry world_queues) !! queueKey depth "workflow"
    = Some (queueInstrument depth "workflow" 19)
  ∧ workqueueMetrics (registry world_queues) !! queueKey adds "workflow"
    = Some (queueInstrument adds "workflow" 20)
  ∧ (depth, "workflow") ≠ (adds, "workflow")
  ∧ inst_id (queueInstrument depth "workflow" 19)
    ≠ inst_id (queueInstrument adds "workflow" 20).
Proof.
  assert (H1 : reachable world_queues).
  { apply (sample_steps_reachable
             [CallNewDepthMetric "workflow"; CallNewAddsMetric "workflow"]).
    unfold world_queues. stepping. }
  assert (H2 : workqueueMetrics (registry world_queues) !! queueKey depth "workflow"
               = Some (queueInstrument depth "workflow" 19)) by evaluate.
  assert (H3 : workqueueMetrics (registry world_queues) !! queueKey adds "workflow"
               = Some (queueInstrument adds "workflow" 20)) by evaluate.
  assert (H4 : (depth, "workflow") ≠ (adds, "workflow")) by discriminate.
  split; [exact H1|]. split; [exact H2|]. split; [exact H3|]. split; [exact H4|].
  exact (queue_instruments_distinct world_queues depth "workflow" _ adds "workflow" _
           H1 H2 H3 H4).
Defined.

(** X15 on the sample registry. *)
Lemma calls_keep_system_fields_witness :
  steps sample_world [register_duration] world_registered
  ∧ defaultMetricDescs (registry world_registered)
    = defaultMetricDescs (registry sample_world).
Proof.
  assert (H1 : steps sample_world [register_duration] world_registered).
  { unfold world_registered. stepping. }
  split; [exact H1|].
  exact (proj2 (proj2 (proj2 (proj2 (proj2
           (calls_keep_system_fields sample_world _ world_registered H1)))))).
Defined.

(** X16 on the sample registry. *)
Lemma registration_error_iff_witness :
  reachable sample_world
  ∧ ((∃ b, b ∈ systemMetrics (registry sample_world)
           ∧ Desc_String b = Desc_String processed_again)
     ↔ UpsertCustomMetric "k" "run-A" (Some processed_again) true 1%Z
         (registry sample_world)
       = Returns (Some (DescriptorCollision (Desc_String processed_again)),
                  registry sample_world)).
Proof.
  assert (H1 : reachable sample_world).
  { apply (sample_steps_reachable []). apply steps_nil. }
  split; [exact H1|].
  exact (proj1 (registration_error_iff sample_world "k" "run-A" processed_again
                  true 1%Z H1)).
Defined.

(** X19 on the sample registry: the phase Running has a gauge. *)
Lemma phase_gauges_fixed_witness :
  New sample_config sample_config 0
  = Returns (registry sample_world, next_object sample_world)
  ∧ steps (mkWorld (next_object sample_world) [] (registry sample_world)) []
      (mkWorld (next_object sample_world) [] (registry sample_world))
  ∧ SetWorkflowPhaseGauge "Running" 3 (registry sample_world) ∅
    = match (getWorkflowPhaseGauges 1).1 !! "Running" with
      | Some g => Returns (send g (DoSet 3) ∅)
      | None => Panics
      end.
Proof.
  split; [exact sample_New|]. split; [apply steps_nil|].
  exact (phase_gauges_fixed sample_config sample_config 0 (registry sample_world)
           (next_object sample_world) [] _ "Running" 3%Z ∅ sample_New
           (steps_nil _)).
Defined.

(** X20 on the sample registry. *)
Lemma error_counters_fixed_witness :
  New sample_config sample_config 0
  = Returns (registry sample_world, next_object sample_world)
  ∧ steps (mkWorld (next_object sample_world) [] (registry sample_world)) []
      (mkWorld (next_object sample_world) [] (registry sample_world))
  ∧ OperationPanic (registry sample_world) ∅
    = match (getErrorCounters (S (getWorkflowPhaseGauges 1).2)).1
            !! ErrorCauseOperationPanic with
      | Some c => Returns (send c DoInc ∅)
      | None => Panics
      end.
Proof.
  split; [exact sample_New|]. split; [apply steps_nil|].
  exact (proj1 (error_counters_fixed sample_config sample_config 0
                  (registry sample_world) (next_object sample_world) [] _ ∅
                  sample_New (steps_nil _))).
Defined.

(** X21 on the sample registry: added to and removed from the pod
    collection queue. *)
Lemma updates_do_not_interfere_witness :
  New sample_config sample_config 0
  = Returns (registry sample_world, next_object sample_world)
  ∧ method CallIncrementPodGCAddedToQueue ≠ method CallIncrementPodGCRemovedFromQueue
  ∧ update CallIncrementPodGCAddedToQueue (registry sample_world)
      (update CallIncrementPodGCRemovedFromQueue (registry sample_world) ∅)
    = update CallIncrementPodGCRemovedFromQueue (registry sample_world)
        (update CallIncrementPodGCAddedToQueue (registry sample_world) ∅).
Proof.
  assert (H3 : method CallIncrementPodGCAddedToQueue
               ≠ method CallIncrementPodGCRemovedFromQueue) by discriminate.
  split; [exact sample_New|]. split; [exact H3|].
  exact (proj2 (updates_do_not_interfere sample_config sample_config 0
                  (registry sample_world) (next_object sample_world) []
                  (mkWorld (next_object sample_world) [] (registry sample_world))
                  _ _ ∅ sample_New (steps_nil _) H3)).
Defined.


End SampleFacts.
